(** * Loopback harness: sample loading, TX/RX streaming loops and the
      correlation analyzer of [gps_tx_rx_loopback.py]

    The development follows the Python script function by function.

    - [Py]       : the exceptions the script can raise and a result type.
    - [Loader]   : [load_iq_file] over a read-only file system, and the
                   start of [main] up to the launch of the threads.
    - [Tx]       : [tx_thread_fn].  The thread is modelled on its own: the
                   environment (how long the stop event stays clear, what
                   each [send] does) is an explicit script, and the calls
                   of [send] and the printed lines are an explicit trace.
    - [Rx]       : [rx_thread_fn], in the same style; the capture file is
                   a list of bytes.
    - [Analyzer] : [fft_xcorr], [analyze_correlation] and the end of
                   [main].  numpy's floating point numbers are idealised
                   by the real numbers of the Standard Library, complex
                   samples by pairs of reals, and [np.fft.fft] and
                   [np.fft.ifft] by the discrete Fourier transform and its
                   inverse; rounding is not part of the model.

    [time.sleep] and the timing of the two threads are not modelled.
    The first part of the file holds the definitions, the second part the
    properties. *)

From Stdlib Require Import String.
From Stdlib Require Import Strings.Byte.
From Stdlib Require Import Reals Lra.
From Stdlib Require Import List ZArith Lia Bool Arith PeanoNat.
Import ListNotations.
Local Open Scope string_scope.
Local Open Scope list_scope.

(* ------------------------------------------------------------------ *)
(** ** Python exceptions and results *)

Module Py.

Inductive exn : Type :=
| FileNotFoundError (msg : string)
| ValueError (msg : string)
| OverflowError (msg : string).

Inductive result (A : Type) : Type :=
| Ok (a : A)
| Raise (e : exn).

Arguments Ok {A} a.
Arguments Raise {A} e.

Definition bind {A B : Type} (r : result A) (k : A -> result B) : result B :=
  match r with
  | Ok a => k a
  | Raise e => Raise e
  end.

(** Python slice [l[i:j]] for non-negative bounds. *)
Definition slice {A : Type} (l : list A) (i j : nat) : list A :=
  firstn (j - i) (skipn i l).

End Py.

Notation "x <- c ;; k" := (Py.bind c (fun x => k))
  (at level 61, c at next level, right associativity).

(* ------------------------------------------------------------------ *)
(** ** [load_iq_file] *)

Module Loader.
Import Py.

Section Load.

(** The element type of the loaded buffer and numpy's two conversions
    into it: the reinterpretation of eight file bytes as one complex64
    item, and [(float32 I + 1j * float32 Q) / 32768.0]. *)
Variable complex64 : Type.
Variable view_complex64 : list byte -> complex64.
Variable scale_sc16 : Z -> Z -> complex64.

(** A path either does not exist or names a file with its bytes. *)
Definition filesystem : Type := string -> option (list byte).

(** [np.fromfile(path, dtype)]: the whole items of [itemsize] bytes, in
    order; bytes after the last whole item are not returned. *)
Fixpoint items (itemsize fuel : nat) (bs : list byte) : list (list byte) :=
  match fuel with
  | O => []
  | S fuel' =>
      if (itemsize <=? length bs)%nat
      then firstn itemsize bs :: items itemsize fuel' (skipn itemsize bs)
      else []
  end.

Definition np_fromfile (itemsize : nat) (bs : list byte) : list (list byte) :=
  items itemsize (length bs) bs.

(** A little-endian signed 16-bit integer. *)
Definition int16_of_bytes (item : list byte) : Z :=
  let u := (Z.of_N (Byte.to_N (nth 0 item x00))
            + 256 * Z.of_N (Byte.to_N (nth 1 item x00)))%Z in
  if (u <? 32768)%Z then u else (u - 65536)%Z.

(** [raw.reshape(-1, 2)] on an array of even size. *)
Fixpoint reshape2 (raw : list Z) : list (Z * Z) :=
  match raw with
  | i :: q :: rest => (i, q) :: reshape2 rest
  | _ => []
  end.

Definition load_iq_file (fs : filesystem) (path fmt : string)
  : result (list complex64) :=
  match fs path with
  | None => Raise (FileNotFoundError (String.append path " not found"))
  | Some bs =>
      if String.eqb fmt "fc32" then
        Ok (map view_complex64 (np_fromfile 8 bs))
      else if String.eqb fmt "sc16" then
        let raw := map int16_of_bytes (np_fromfile 2 bs) in
        if negb (length raw mod 2 =? 0)%nat then
          Raise (ValueError "sc16 file length not even")
        else
          Ok (map (fun iq => scale_sc16 (fst iq) (snd iq)) (reshape2 raw))
      else
        Raise (ValueError "Unsupported FILE_FORMAT: use 'fc32' or 'sc16'")
  end.

(** The start of [main], up to the point where the two threads are
    started: a failed load or a failed device open exits with status 1. *)
Inductive startup : Type :=
| SysExit (code : Z)
| StartThreads (iq_data : list complex64).

Definition main_startup (fs : filesystem) (FILE_PATH FILE_FORMAT : string)
           (open_usrp : result unit) : startup :=
  match load_iq_file fs FILE_PATH FILE_FORMAT with
  | Raise _ => SysExit 1
  | Ok iq_data =>
      match open_usrp with
      | Raise _ => SysExit 1
      | Ok _ => StartThreads iq_data
      end
  end.

End Load.

Arguments SysExit {complex64} code.
Arguments StartThreads {complex64} iq_data.

End Loader.

(* ------------------------------------------------------------------ *)
(** ** [tx_thread_fn] *)

Module Tx.
Import Py.

(** [uhd.types.TXMetadata], the three fields the script sets. *)
Record TXMetadata : Type := {
  start_of_burst : bool;
  end_of_burst : bool;
  has_time_spec : bool
}.

Definition set_start_of_burst (m : TXMetadata) (b : bool) : TXMetadata :=
  {| start_of_burst := b;
     end_of_burst := end_of_burst m;
     has_time_spec := has_time_spec m |}.

Definition set_end_of_burst (m : TXMetadata) (b : bool) : TXMetadata :=
  {| start_of_burst := start_of_burst m;
     end_of_burst := b;
     has_time_spec := has_time_spec m |}.

(** What one call of [tx_stream.send] does: it returns a sample count
    (which the script ignores) or raises. *)
Inductive send_result : Type :=
| Sent (num : nat)
| SendRaised.

Inductive log_line : Type :=
| Progress (sent_chunks idx total : nat)
| TxException.

Inductive loop_exit : Type :=
| StopObserved
| BufferExhausted
| SendFailed.

Section Transmit.

Variable complex64 : Type.
(** The two user settings the loop reads. *)
Variable LOOP_FILE : bool.
Variable CHUNK_SAMPLES : nat.

(** The trace of the thread: every call of [send] with the chunk, a
    snapshot of the metadata object at the call and what the call did,
    and every printed line. *)
Inductive event : Type :=
| Send (chunk : list complex64) (md : TXMetadata) (r : send_result)
| Print (line : log_line).

Record tx_state : Type := {
  idx : nat;
  first : bool;
  sent_chunks : nat;
  md : TXMetadata
}.

(** The [while not stop_event.is_set()] loop.  The environment is the
    list of iterations that find the stop event clear, each with the
    outcome its [send] has if it is reached; the event is found set when
    the list is used up.  [idx] never exceeds [total], so the natural
    number [total - idx] is the script's [remaining] and
    [remaining <= 0] is [remaining = 0]. *)
Fixpoint tx_loop (iq_data : list complex64) (env : list send_result)
         (st : tx_state) : list event * tx_state * loop_exit :=
  match env with
  | [] => ([], st, StopObserved)
  | r :: env' =>
      let total := length iq_data in
      let body (idx0 remaining : nat) :=
        let chunk_size := Nat.min CHUNK_SAMPLES remaining in
        let chunk := slice iq_data idx0 (idx0 + chunk_size) in
        match r with
        | SendRaised =>
            ([Send chunk (md st) r; Print TxException],
             {| idx := idx0; first := first st;
                sent_chunks := sent_chunks st; md := md st |},
             SendFailed)
        | Sent _ =>
            let md' := if first st then set_start_of_burst (md st) false
                       else md st in
            let st' := {| idx := idx0 + chunk_size; first := false;
                          sent_chunks := S (sent_chunks st); md := md' |} in
            let progress :=
              if (sent_chunks st' mod 200 =? 0)%nat
              then [Print (Progress (sent_chunks st') (idx st') total)]
              else [] in
            let '(evs, st_end, why) := tx_loop iq_data env' st' in
            (Send chunk (md st) r :: progress ++ evs, st_end, why)
        end in
      let remaining := (total - idx st)%nat in
      if (remaining <=? 0)%nat then
        if LOOP_FILE then body 0%nat total
        else ([], st, BufferExhausted)
      else body (idx st) remaining
  end.

Definition md_init : TXMetadata :=
  {| start_of_burst := true; end_of_burst := false; has_time_spec := false |}.

Definition st_init : tx_state :=
  {| idx := 0; first := true; sent_chunks := 0; md := md_init |}.

(** The whole thread: the loop, then the [finally] block, which sets
    [end_of_burst] on the same metadata object and sends an empty chunk;
    whatever that last call does is swallowed. *)
Definition tx_thread_fn (iq_data : list complex64) (env : list send_result)
           (flush : send_result) : list event :=
  let '(evs, st, _) := tx_loop iq_data env st_init in
  evs ++ [Send [] (set_end_of_burst (md st) true) flush].

(** Views of a trace. *)
Definition sends (tr : list event)
  : list (list complex64 * TXMetadata * send_result) :=
  flat_map (fun e => match e with
                     | Send c m r => [(c, m, r)]
                     | Print _ => []
                     end) tr.

Definition chunks (tr : list event) : list (list complex64) :=
  map (fun s => fst (fst s)) (sends tr).

(** The chunks handed to [send] inside the loop (the flush excluded). *)
Definition data_chunks (iq_data : list complex64) (env : list send_result)
  : list (list complex64) :=
  chunks (fst (fst (tx_loop iq_data env st_init))).

Definition returned (r : send_result) : bool :=
  match r with Sent _ => true | SendRaised => false end.

(** Number of calls of [send] that carry start-of-burst, resp.
    end-of-burst; [delivered] keeps the calls that returned. *)
Definition count_sob (tr : list event) : nat :=
  length (filter (fun s => start_of_burst (snd (fst s))) (sends tr)).

Definition count_eob (tr : list event) : nat :=
  length (filter (fun s => end_of_burst (snd (fst s))) (sends tr)).

Definition delivered (tr : list event) : list event :=
  filter (fun e => match e with
                   | Send _ _ r => returned r
                   | Print _ => false
                   end) tr.

(** The pieces of one iteration, named for the statements below: where
    the iteration reads from (the cursor, or 0 after a wrap), the chunk
    it hands to [send], the state after a [send] that returned and the
    progress line printed every 200 chunks. *)
Definition cursor (iq_data : list complex64) (st : tx_state) : nat :=
  if (length iq_data - idx st <=? 0)%nat then 0%nat else idx st.

Definition chunk_at (iq_data : list complex64) (idx0 : nat) : list complex64 :=
  slice iq_data idx0
        (idx0 + Nat.min CHUNK_SAMPLES (length iq_data - idx0)).

Definition after_send (iq_data : list complex64) (st : tx_state)
           (idx0 : nat) : tx_state :=
  {| idx := idx0 + Nat.min CHUNK_SAMPLES (length iq_data - idx0);
     first := false;
     sent_chunks := S (sent_chunks st);
     md := if first st then set_start_of_burst (md st) false else md st |}.

Definition progress_of (iq_data : list complex64) (st' : tx_state)
  : list event :=
  if (sent_chunks st' mod 200 =? 0)%nat
  then [Print (Progress (sent_chunks st') (idx st') (length iq_data))]
  else [].

(** Whether the first [send] of the loop raised. *)
Definition first_data_send_raised (iq_data : list complex64)
           (env : list send_result) : bool :=
  match sends (fst (fst (tx_loop iq_data env st_init))) with
  | (_, _, SendRaised) :: _ => true
  | _ => false
  end.

(** An environment in which every [send] returns. *)
Definition all_sent (env : list send_result) : Prop :=
  Forall (fun r => returned r = true) env.

End Transmit.

End Tx.

(* ------------------------------------------------------------------ *)
(** ** [rx_thread_fn] *)

Module Rx.

Inductive RXMetadataErrorCode : Type :=
| none | timeout | late_command | broken_chain
| overflow | alignment | bad_packet.

Inductive log_line : Type :=
| RecvException
| MetadataError (code : RXMetadataErrorCode)
| Samples (num : nat).

Section Receive.

Variable complex64 : Type.
(** [ndarray.tobytes] on one complex64 item. *)
Variable tobytes : complex64 -> list byte.

(** What one call of [rx_stream.recv(buf, md, timeout=2.0)] does: it
    raises, or it returns a count, having set [md.error_code] and written
    into [buf]; [buf] is the content of the buffer after the call. *)
Inductive recv_result : Type :=
| RecvRaised
| Recv (num : nat) (error_code : RXMetadataErrorCode) (buf : list complex64).

(** One iteration of the loop on the open file [fh]; the printed rms
    value is left out of the log line. *)
Definition rx_iteration (fh : list byte) (r : recv_result)
  : list byte * list log_line :=
  match r with
  | RecvRaised => (fh, [RecvException])
  | Recv num error_code buf =>
      match error_code with
      | none =>
          if (0 <? num)%nat
          then (fh ++ flat_map tobytes (firstn num buf), [Samples num])
          else (fh, [])
      | _ => (fh, [MetadataError error_code])
      end
  end.

(** The loop: one element of the environment per iteration that finds
    the stop event clear. *)
Fixpoint rx_loop (fh : list byte) (env : list recv_result)
  : list byte * list log_line :=
  match env with
  | [] => (fh, [])
  | r :: env' =>
      let '(fh', out) := rx_iteration fh r in
      let '(fh'', out') := rx_loop fh' env' in
      (fh'', out ++ out')
  end.

(** [open(out_filename, "wb")] starts from an empty file. *)
Definition rx_thread_fn (env : list recv_result) : list byte * list log_line :=
  rx_loop [] env.

(** The samples an iteration contributes to the capture. *)
Definition valid_count (r : recv_result) : nat :=
  match r with
  | Recv num none _ => num
  | _ => 0
  end.

(** [recv] never reports more samples than the buffer holds. *)
Definition within_buffer (r : recv_result) : Prop :=
  match r with
  | Recv num _ buf => (num <= length buf)%nat
  | RecvRaised => True
  end.

End Receive.

End Rx.

(* ------------------------------------------------------------------ *)
(** ** [fft_xcorr] and [analyze_correlation] *)


Module Analyzer.
Import Py.
Local Open Scope R_scope.

(** *** Complex samples *)

Definition C : Type := (R * R)%type.

Definition C0 : C := (0, 0).
Definition C1 : C := (1, 0).
Definition RtoC (x : R) : C := (x, 0).

Definition Cadd (z w : C) : C := (fst z + fst w, snd z + snd w).
Definition Csub (z w : C) : C := (fst z - fst w, snd z - snd w).
Definition Cmul (z w : C) : C :=
  (fst z * fst w - snd z * snd w, fst z * snd w + snd z * fst w).
Definition Cconj (z : C) : C := (fst z, - snd z).
Definition Cscale (r : R) (z : C) : C := (r * fst z, r * snd z).

(** [np.abs] on a complex number. *)
Definition Cabs (z : C) : R := sqrt (fst z * fst z + snd z * snd z).

(** [sum_{i < n} f i]. *)
Fixpoint Csum (f : nat -> C) (n : nat) : C :=
  match n with
  | O => C0
  | S n' => Cadd (Csum f n') (f n')
  end.

(** [np.sum] on a real array. *)
Definition np_sum (l : list R) : R := fold_right Rplus 0 l.

(** [np.sum(np.abs(x)**2)]. *)
Definition energy (x : list C) : R :=
  np_sum (map (fun z => Cabs z ^ 2) x).

Definition log10 (x : R) : R := ln x / ln 10.

(** *** The discrete Fourier transform *)

(** [exp(2 pi i k / n)]. *)
Definition cis (n : nat) (k : Z) : C :=
  (cos (2 * PI * IZR k / INR n), sin (2 * PI * IZR k / INR n)).

(** The length adjustment of [np.fft.fft(a, n)]: the input is cropped
    to [n] samples or padded with zeros up to [n]. *)
Definition resize (a : list C) (n : nat) : list C :=
  firstn n a ++ repeat C0 (n - length a).

(** [np.fft.fft(a, n)] and [np.fft.ifft(X)], as the exact transforms the
    float routines approximate: a statement on their lengths and indices
    carries over to the float arrays, a statement on their values is
    about the exact sums. *)
Definition np_fft (a : list C) (n : nat) : list C :=
  let x := resize a n in
  map (fun k =>
         Csum (fun j => Cmul (nth j x C0)
                             (cis n (- (Z.of_nat k * Z.of_nat j)))) n)
      (seq 0 n).

Definition np_ifft (X : list C) : list C :=
  let n := length X in
  map (fun j =>
         Cscale (/ INR n)
                (Csum (fun k => Cmul (nth k X C0)
                                     (cis n (Z.of_nat j * Z.of_nat k))) n))
      (seq 0 n).

(** Element-wise operations on arrays of equal length. *)
Fixpoint map2 {A B D : Type} (f : A -> B -> D) (l : list A) (l' : list B)
  : list D :=
  match l, l' with
  | x :: t, y :: t' => f x y :: map2 f t t'
  | _, _ => []
  end.

(** [np.argmax]: the first index of the maximum; an empty array raises. *)
Fixpoint argmax_from (best_i : nat) (best : R) (i : nat) (l : list R) : nat :=
  match l with
  | [] => best_i
  | x :: t =>
      if Rlt_dec best x then argmax_from i x (S i) t
      else argmax_from best_i best (S i) t
  end.

Definition np_argmax (l : list R) : result nat :=
  match l with
  | [] => Raise (ValueError "attempt to get argmax of an empty sequence")
  | x :: t => Ok (argmax_from 0 x 1 t)
  end.

(** *** [fft_xcorr] *)

(** [int(np.ceil(np.log2(m)))] for an integer [m]: [np.log2] is nan
    below zero and -inf at zero, and [int] raises on both; above zero
    the logarithm is taken exactly. *)
Definition int_ceil_log2 (m : Z) : result Z :=
  if (m <? 0)%Z then
    Raise (ValueError "cannot convert float NaN to integer")
  else if (m =? 0)%Z then
    Raise (OverflowError "cannot convert float infinity to integer")
  else Ok (Z.log2_up m).

Definition fft_xcorr (a b : list C) : result (list C) :=
  let na := length a in
  let nb := length b in
  k <- int_ceil_log2 (Z.of_nat na + Z.of_nat nb - 1) ;;
  let n := Z.to_nat (Z.shiftl 1 k) in
  let A := np_fft a n in
  let B := np_fft b n in
  let corr := np_ifft (map2 Cmul B (map Cconj A)) in
  Ok (firstn (na + nb - 1) corr).

(** *** [analyze_correlation] *)

Record CorrelationResult : Type := {
  peak_index : Z;
  lag_samples : Z;
  peak_value : R;
  norm_peak : R;
  snr_db_est : R;
  E_tx : R
}.

(** The window of the capture the metrics are computed on. *)
Definition rx_window (tx rx : list C) (lag : Z) : list C :=
  let start := Z.to_nat (Z.max 0 lag) in
  let end_ := (start + length tx)%nat in
  if (end_ <=? length rx)%nat then slice rx start end_
  else slice rx start (length rx).

(** [10 * log10(max(1e-12, signal_power / (noise_power + 1e-12)))] for
    a captured segment and the reference samples subtracted from it. *)
Definition snr_of (rx_segment ref : list C) : R :=
  let signal_power :=
    energy rx_segment / Rmax 1 (INR (length rx_segment)) in
  let residual := map2 Csub rx_segment ref in
  let noise_power := energy residual / Rmax 1 (INR (length residual)) in
  10 * log10 (Rmax (/ 10 ^ 12) (signal_power / (noise_power + / 10 ^ 12))).

Section Caps.

Variable TX_REF_SAMPLES : nat.
Variable CORR_SEARCH_SAMPLES : nat.

Definition truncate_tx (tx_samples : list C) : list C :=
  slice tx_samples 0 (Nat.min (length tx_samples) TX_REF_SAMPLES).

Definition truncate_rx (rx_samples : list C) : list C :=
  slice rx_samples 0 (Nat.min (length rx_samples) CORR_SEARCH_SAMPLES).

Definition analyze_correlation (tx_samples rx_samples : list C)
  : result CorrelationResult :=
  let tx := truncate_tx tx_samples in
  let rx := truncate_rx rx_samples in
  corr <- fft_xcorr tx rx ;;
  let abs_corr := map Cabs corr in
  peak_idx <- np_argmax abs_corr ;;
  let peak_val := nth peak_idx abs_corr 0 in
  let lag := (Z.of_nat peak_idx - (Z.of_nat (length tx) - 1))%Z in
  let E_tx_ := energy tx in
  let rx_segment := rx_window tx rx lag in
  let E_rx_seg := energy rx_segment in
  let norm_peak_ :=
    peak_val / (sqrt (E_tx_ * (E_rx_seg + / 10 ^ 12)) + / 10 ^ 24) in
  let snr_est :=
    snr_of rx_segment (slice tx 0 (length rx_segment)) in
  Ok {| peak_index := Z.of_nat peak_idx;
        lag_samples := lag;
        peak_value := peak_val;
        norm_peak := norm_peak_;
        snr_db_est := snr_est;
        E_tx := E_tx_ |}.

(** The end of [main], once the threads have stopped: no capture file,
    an empty capture (reported, and the analysis is skipped), or the
    analysis of the start of the loaded buffer against the capture; an
    exception of the analysis is not caught. *)
Inductive report : Type :=
| NoRxFile
| NoSignalCaptured
| Summary (res : CorrelationResult)
| Uncaught (e : exn).

Definition main_report (rx_file : option (list C)) (iq_data : list C)
  : report :=
  match rx_file with
  | None => NoRxFile
  | Some rx_data =>
      if (length rx_data =? 0)%nat then NoSignalCaptured
      else
        let tx_ref :=
          slice iq_data 0 (Nat.min (length iq_data) TX_REF_SAMPLES) in
        match analyze_correlation tx_ref rx_data with
        | Ok res => Summary res
        | Raise e => Uncaught e
        end
  end.

End Caps.

(** *** The lag-aligned signal-to-noise ratio, as the specification words it

    The captured window aligned at lag [L] pairs the reference sample
    [tx[j]] with the captured sample [rx[L + j]], for every [j] whose
    captured position exists; the residual is the difference of each
    pair. *)
Definition aligned_pairs (tx rx : list C) (L : Z) : list (C * C) :=
  flat_map (fun j =>
              let p := (L + Z.of_nat j)%Z in
              if ((0 <=? p) && (p <? Z.of_nat (length rx)))%Z
              then [(nth (Z.to_nat p) rx C0, nth j tx C0)]
              else [])
           (seq 0 (length tx)).

Definition snr_lag_aligned (tx rx : list C) (L : Z) : R :=
  let pairs := aligned_pairs tx rx L in
  snr_of (map fst pairs) (map snd pairs).

(** The circular cross-correlation of two arrays of length [n]. *)
Definition circular_xcorr (x y : list C) (n k : nat) : C :=
  Csum (fun m => Cmul (Cconj (nth m x C0)) (nth ((m + k) mod n) y C0)) n.

End Analyzer.

(* ------------------------------------------------------------------ *)
(** ** Views of the traces used by the further properties *)

Module Trace.

(** The samples one receive iteration appends to the capture. *)
Definition captured {complex64 : Type} (r : Rx.recv_result complex64)
  : list complex64 :=
  match r with
  | Rx.Recv _ num Rx.none buf => firstn num buf
  | _ => []
  end.

(** The number of progress lines in a transmit trace. *)
Definition progress_lines {complex64 : Type}
           (tr : list (Tx.event complex64)) : nat :=
  length (filter (fun e => match e with
                           | Tx.Print _ (Tx.Progress _ _ _) => true
                           | _ => false
                           end) tr).

End Trace.

(* ------------------------------------------------------------------ *)
(** ** The receive loop of [rx_test.py] and [rx_ant_sweep.py] *)

Module RxTest.
Import Py.

Inductive line : Type :=
| RecvExceptionLine
| MdLine (code : Rx.RXMetadataErrorCode) (num : nat)
| GotSamples (num : nat).

(** What either script does: exit with a status, or run the loop and
    print its lines. *)
Inductive run : Type :=
| SysExit (code : Z)
| Printed (lines : list line).

Section Loop.

Variable complex64 : Type.

(** The [while time.time() - t0 < ...] loop: one element of the
    environment per iteration started before the time is up.  A [recv]
    that raises ends the loop; otherwise the metadata line is printed
    and, with no error code and a positive count, the rms line. *)
Fixpoint test_loop (env : list (Rx.recv_result complex64)) : list line :=
  match env with
  | [] => []
  | Rx.RecvRaised _ :: _ => [RecvExceptionLine]
  | Rx.Recv _ num code buf :: env' =>
      MdLine code num
        :: (match code with
            | Rx.none => if (0 <? num)%nat then [GotSamples num] else []
            | _ => []
            end)
        ++ test_loop env'
  end.

(** [rx_test.py]: a failed device open exits with status 1; a rejected
    antenna is printed and the test goes on. *)
Definition rx_test (open_usrp set_rx_antenna : result unit)
           (env : list (Rx.recv_result complex64)) : run :=
  match open_usrp with
  | Raise _ => SysExit 1
  | Ok _ => Printed (test_loop env)
  end.

(** [rx_ant_sweep.py]: a failed device open and a rejected antenna both
    exit with status 1. *)
Definition rx_ant_sweep (open_usrp set_rx_antenna : result unit)
           (env : list (Rx.recv_result complex64)) : run :=
  match open_usrp with
  | Raise _ => SysExit 1
  | Ok _ =>
      match set_rx_antenna with
      | Raise _ => SysExit 1
      | Ok _ => Printed (test_loop env)
      end
  end.

End Loop.

End RxTest.

(* ------------------------------------------------------------------ *)
(** ** The transmit path of the flowgraph in [gps-sdr-sim-uhd_v2.py] *)

Module Flowgraph.
Local Open Scope R_scope.

(** A stream of items, by position. *)
Definition stream (A : Type) : Type := nat -> A.

(** [blocks.file_source(gr.sizeof_char, tx_file, repeat=True)]: the bytes
    of the file, over and over.  The block produces nothing from a file
    without a byte, so the stream stands for the block only when
    [tx_file] is not empty. *)
Definition file_source (tx_file : list byte) : stream byte :=
  fun i => nth (i mod length tx_file) tx_file x00.

(** [blocks.deinterleave(gr.sizeof_char)], output [port] of two: the
    items at positions [port], [port + 2], [port + 4], ... *)
Definition deinterleave (s : stream byte) (port : nat) : stream byte :=
  fun k => s (2 * k + port)%nat.

(** A byte as a signed char. *)
Definition int8_of_byte (b : byte) : Z :=
  let u := Z.of_N (Byte.to_N b) in
  if (u <? 128)%Z then u else (u - 256)%Z.

(** [blocks.char_to_float(1, scale)]: the signed value divided by
    [scale]. *)
Definition char_to_float (scale : R) (s : stream byte) : stream R :=
  fun k => IZR (int8_of_byte (s k)) / scale.

(** [blocks.multiply_const_ff(c)]. *)
Definition multiply_const_ff (c : R) (s : stream R) : stream R :=
  fun k => c * s k.

(** [blocks.float_to_complex(1)]. *)
Definition float_to_complex (re im : stream R) : stream Analyzer.C :=
  fun k => (re k, im k).

(** The connections of [TxRxTop] from the file source to the input of the
    USRP sink. *)
Definition usrp_sink_input (tx_file : list byte) (scale : R)
  : stream Analyzer.C :=
  let file_src := file_source tx_file in
  let deint := deinterleave file_src in
  let scale_I := multiply_const_ff scale (char_to_float 1 (deint 0%nat)) in
  let scale_Q := multiply_const_ff scale (char_to_float 1 (deint 1%nat)) in
  float_to_complex scale_I scale_Q.

End Flowgraph.

(* ================================================================== *)
(** * Properties *)

Lemma firstn_plus {A : Type} (a b : nat) (l : list A) :
  firstn (a + b) l = firstn a l ++ firstn b (skipn a l).
Proof.
  revert l. induction a as [|a IH]; intros [|x l]; simpl;
    try reflexivity.
  - now rewrite firstn_nil.
  - now rewrite IH.
Qed.

(* ------------------------------------------------------------------ *)
(** ** Loading *)

Section LoaderFacts.
Import Py Loader.

Variable complex64 : Type.
Variable view_complex64 : list byte -> complex64.
Variable scale_sc16 : Z -> Z -> complex64.

Local Abbreviation load := (load_iq_file complex64 view_complex64 scale_sc16).
Local Abbreviation startup_of := (main_startup complex64 view_complex64 scale_sc16).

Lemma items_length (k : nat) :
  (0 < k)%nat ->
  forall fuel bs, (length bs <= fuel)%nat ->
    length (items k fuel bs) = (length bs / k)%nat.
Proof.
  intros Hk. induction fuel as [|fuel IH]; intros bs Hf.
  - assert (length bs = 0)%nat as -> by lia.
    simpl. symmetry. apply Nat.div_small. lia.
  - simpl. destruct (Nat.leb_spec k (length bs)) as [Hle|Hlt].
    + simpl. rewrite IH by (rewrite length_skipn; lia).
      rewrite length_skipn.
      replace (length bs) with ((length bs - k) + 1 * k)%nat at 2 by lia.
      rewrite Nat.div_add by lia. lia.
    + simpl. symmetry. apply Nat.div_small. lia.
Qed.

Lemma np_fromfile_length (k : nat) (bs : list byte) :
  (0 < k)%nat -> length (np_fromfile k bs) = (length bs / k)%nat.
Proof. intros Hk. apply items_length; auto. Qed.

Lemma items_concat (k : nat) :
  (0 < k)%nat ->
  forall fuel bs, (length bs <= fuel)%nat ->
    concat (items k fuel bs) = firstn (k * (length bs / k)) bs.
Proof.
  intros Hk. induction fuel as [|fuel IH]; intros bs Hf.
  - destruct bs; simpl in *; [|lia]. now rewrite firstn_nil.
  - simpl. destruct (Nat.leb_spec k (length bs)) as [Hle|Hlt].
    + simpl. rewrite IH by (rewrite length_skipn; lia).
      rewrite length_skipn.
      replace (length bs / k)%nat with (S ((length bs - k) / k)).
      2:{ replace (length bs) with ((length bs - k) + 1 * k)%nat at 2 by lia.
          rewrite Nat.div_add by lia. lia. }
      replace (k * S ((length bs - k) / k))%nat
        with (k + k * ((length bs - k) / k))%nat by lia.
      now rewrite firstn_plus.
    + rewrite Nat.div_small by lia. now rewrite Nat.mul_0_r.
Qed.

Lemma items_all_whole (k fuel : nat) (bs item : list byte) :
  In item (items k fuel bs) -> length item = k.
Proof.
  revert bs. induction fuel as [|fuel IH]; intros bs; simpl; [tauto|].
  destruct (Nat.leb_spec k (length bs)) as [Hle|Hlt]; simpl; [|tauto].
  intros [<-|Hin].
  - rewrite length_firstn. lia.
  - eauto.
Qed.

Lemma reshape2_length (raw : list Z) :
  length (reshape2 raw) = (length raw / 2)%nat.
Proof.
  assert (H : forall n raw, (length raw <= n)%nat ->
                length (reshape2 raw) = (length raw / 2)%nat).
  { clear raw. induction n as [|n IH]; intros raw Hn.
    - destruct raw; simpl in *; [reflexivity|lia].
    - destruct raw as [|i [|q rest]]; try reflexivity.
      cbn [reshape2 length]. rewrite IH by (simpl in Hn; lia).
      change (S (S (length rest))) with (2 + length rest)%nat.
      replace (2 + length rest)%nat with (length rest + 1 * 2)%nat by lia.
      rewrite Nat.div_add by lia. lia. }
  apply (H (length raw)). lia.
Qed.

Lemma odd_mod2 (n : nat) : negb (n mod 2 =? 0)%nat = Nat.odd n.
Proof.
  rewrite <- Nat.negb_even. f_equal.
  destruct (Nat.even n) eqn:E.
  - apply Nat.even_spec in E. destruct E as [k ->].
    rewrite Nat.mul_comm, Nat.Div0.mod_mul. reflexivity.
  - apply Nat.eqb_neq. intros H.
    apply Nat.Div0.mod_divides in H. destruct H as [k ->].
    rewrite Nat.even_mul in E. discriminate.
Qed.

(** C9. A missing path raises [FileNotFoundError].  For an existing file
    read as sc16, [ValueError] is raised exactly when the file holds an odd
    count of 16-bit values, and with an even count a buffer of half as many
    samples is returned; an existing file read as fc32 yields a buffer.
    Whenever the load raises, [main] exits with status 1 instead of
    starting the streaming threads. *)
Theorem load_iq_file_failures (fs : filesystem) (path fmt : string) :
  (fs path = None ->
   load fs path fmt = Raise (FileNotFoundError (String.append path " not found")))
  /\ (forall bs, fs path = Some bs -> fmt = "sc16" ->
      let count := length (np_fromfile 2 bs) in
      count = (length bs / 2)%nat
      /\ ((exists msg, load fs path fmt = Raise (ValueError msg))
          <-> Nat.odd count = true)
      /\ (forall e, load fs path fmt = Raise e ->
                    e = ValueError "sc16 file length not even")
      /\ (Nat.even count = true ->
          exists buf, load fs path fmt = Ok buf
                      /\ length buf = (count / 2)%nat))
  /\ (forall bs, fs path = Some bs -> fmt = "fc32" ->
      exists buf, load fs path fmt = Ok buf)
  /\ (forall e open_usrp, load fs path fmt = Raise e ->
      startup_of fs path fmt open_usrp = SysExit 1%Z).
Proof.
  repeat split.
  - intros H. unfold load_iq_file. now rewrite H.
  - apply np_fromfile_length. lia.
  - subst fmt. unfold load_iq_file. rewrite H. cbn [String.eqb Ascii.eqb Bool.eqb].
    rewrite length_map, odd_mod2.
    destruct (Nat.odd (length (np_fromfile 2 bs))); [reflexivity|].
    intros [msg Hm]. discriminate.
  - subst fmt. unfold load_iq_file. rewrite H. cbn [String.eqb Ascii.eqb Bool.eqb].
    rewrite length_map, odd_mod2. intros ->. eauto.
  - subst fmt. unfold load_iq_file. rewrite H. cbn [String.eqb Ascii.eqb Bool.eqb].
    destruct (negb _); intros e E; now inversion E.
  - subst fmt. unfold load_iq_file. rewrite H. cbn [String.eqb Ascii.eqb Bool.eqb].
    rewrite length_map, odd_mod2, <- Nat.negb_even. intros ->. cbn [negb].
    eexists. split; [reflexivity|].
    now rewrite length_map, reshape2_length, length_map.
  - intros bs H ->. unfold load_iq_file. rewrite H. cbn. eauto.
  - intros e open_usrp H. unfold main_startup. now rewrite H.
Qed.

(** C10. An existing file read as fc32 is never rejected: whatever its
    byte length, the load returns the [length / 8] whole 8-byte items, in
    file order, and the bytes after the last whole item are dropped.  The
    even-count failure is raised on the sc16 path only. *)
Theorem load_fc32_no_length_check (fs : filesystem) (path : string)
        (bs : list byte) :
  fs path = Some bs ->
  (exists buf,
      load fs path "fc32" = Ok buf
      /\ buf = map view_complex64 (np_fromfile 8 bs)
      /\ length buf = (length bs / 8)%nat)
  /\ concat (np_fromfile 8 bs) = firstn (8 * (length bs / 8)) bs
  /\ (forall item, In item (np_fromfile 8 bs) -> length item = 8%nat)
  /\ (forall fmt, load fs path fmt = Raise (ValueError "sc16 file length not even") ->
                  fmt = "sc16").
Proof.
  intros H. repeat split.
  - eexists. unfold load_iq_file. rewrite H. cbn [String.eqb Ascii.eqb Bool.eqb].
    repeat split. now rewrite length_map, np_fromfile_length by lia.
  - apply items_concat; auto. lia.
  - intros item. apply items_all_whole.
  - intros fmt. unfold load_iq_file. rewrite H.
    destruct (String.eqb_spec fmt "fc32"); [discriminate|].
    destruct (String.eqb_spec fmt "sc16"); [auto|discriminate].
Qed.

End LoaderFacts.

(** C9, at concrete files: a missing path, and a file of three 16-bit
    values read as sc16. *)
Lemma load_iq_file_failures_witness :
  let fs : Loader.filesystem :=
    fun p => if String.eqb p "gpssim.bin"
             then Some [x01; x00; x02; x00; x03; x00] else None in
  let load := Loader.load_iq_file (Z * Z) (fun _ => (0, 0)%Z) (fun i q => (i, q)) in
  load fs "missing.bin" "sc16"
    = Py.Raise (Py.FileNotFoundError "missing.bin not found")
  /\ (exists msg, load fs "gpssim.bin" "sc16" = Py.Raise (Py.ValueError msg)).
Proof.
  intros fs load. split.
  - apply (load_iq_file_failures (Z * Z) (fun _ => (0, 0)%Z) (fun i q => (i, q))
             fs "missing.bin" "sc16").
    reflexivity.
  - destruct (load_iq_file_failures (Z * Z) (fun _ => (0, 0)%Z) (fun i q => (i, q))
                fs "gpssim.bin" "sc16") as (_ & H & _).
    destruct (H [x01; x00; x02; x00; x03; x00] eq_refl eq_refl)
      as (_ & Hiff & _).
    apply Hiff. reflexivity.
Defined.

(** C10, at a file of nine bytes: one sample is returned. *)
Lemma load_fc32_no_length_check_witness :
  let bs := [x00; x00; x80; x3f; x00; x00; x00; x00; x7f] in
  let fs : Loader.filesystem := fun _ => Some bs in
  exists buf,
    Loader.load_iq_file (list byte) (fun item => item) (fun _ _ => []) fs
                        "gpssim.bin" "fc32" = Py.Ok buf
    /\ buf = map (fun item => item) (Loader.np_fromfile 8 bs)
    /\ length buf = (length bs / 8)%nat.
Proof.
  intros bs fs.
  exact (proj1 (load_fc32_no_length_check (list byte) (fun item => item)
                  (fun _ _ => []) fs "gpssim.bin" bs eq_refl)).
Defined.

(* ------------------------------------------------------------------ *)
(** ** Transmit loop *)

Section TxFacts.
Import Py Tx.

Variable complex64 : Type.
Variable CHUNK_SAMPLES : nat.
Variable iq_data : list complex64.

Local Abbreviation total := (length iq_data).
Local Abbreviation loop LOOP_FILE :=
  (tx_loop complex64 LOOP_FILE CHUNK_SAMPLES iq_data).
Local Abbreviation sends_of := (sends complex64).
Local Abbreviation chunks_of := (chunks complex64).

Local Abbreviation after_send := (Tx.after_send complex64 CHUNK_SAMPLES iq_data).
Local Abbreviation progress_of := (Tx.progress_of complex64 iq_data).
Local Abbreviation cursor := (Tx.cursor complex64 iq_data).
Local Abbreviation chunk_at := (Tx.chunk_at complex64 CHUNK_SAMPLES iq_data).

Lemma loop_nil LOOP_FILE st : loop LOOP_FILE [] st = ([], st, StopObserved).
Proof. reflexivity. Qed.

Lemma loop_exhausted r env st :
  (total <= idx st)%nat ->
  loop false (r :: env) st = ([], st, BufferExhausted).
Proof.
  intros H. cbn [tx_loop].
  destruct (Nat.leb_spec (total - idx st) 0); [reflexivity|lia].
Qed.

Lemma loop_sent LOOP_FILE n env st :
  (idx st < total)%nat \/ LOOP_FILE = true ->
  loop LOOP_FILE (Sent n :: env) st =
  let st' := after_send st (cursor st) in
  (Send complex64 (chunk_at (cursor st)) (md st) (Sent n)
     :: progress_of st' ++ fst (fst (loop LOOP_FILE env st')),
   snd (fst (loop LOOP_FILE env st')),
   snd (loop LOOP_FILE env st')).
Proof.
  intros H. cbn [tx_loop]. unfold Tx.cursor, Tx.chunk_at, Tx.after_send, Tx.progress_of.
  destruct (Nat.leb_spec (total - idx st) 0) as [Hle|Hgt].
  - destruct H as [H| ->]; [lia|]. cbn zeta.
    rewrite Nat.sub_0_r.
    destruct (tx_loop _ _ _ _ env _) as [[evs st_end] why]. reflexivity.
  - cbn zeta.
    destruct (tx_loop _ _ _ _ env _) as [[evs st_end] why].
    destruct LOOP_FILE; reflexivity.
Qed.

Lemma loop_raised LOOP_FILE env st :
  (idx st < total)%nat \/ LOOP_FILE = true ->
  loop LOOP_FILE (SendRaised :: env) st =
  ([Send complex64 (chunk_at (cursor st)) (md st) SendRaised;
    Print complex64 TxException],
   {| idx := cursor st; first := first st;
      sent_chunks := sent_chunks st; md := md st |},
   SendFailed).
Proof.
  intros H. cbn [tx_loop]. unfold Tx.cursor, Tx.chunk_at.
  destruct (Nat.leb_spec (total - idx st) 0) as [Hle|Hgt].
  - destruct H as [H| ->]; [lia|]. cbn zeta. now rewrite Nat.sub_0_r.
  - destruct LOOP_FILE; reflexivity.
Qed.

Lemma sends_app (tr tr' : list (event complex64)) :
  sends_of (tr ++ tr') = sends_of tr ++ sends_of tr'.
Proof. unfold sends. apply flat_map_app. Qed.

Lemma sends_progress st : sends_of (progress_of st) = [].
Proof. unfold Tx.progress_of. now destruct (_ =? _)%nat. Qed.

Lemma chunks_app (tr tr' : list (event complex64)) :
  chunks_of (tr ++ tr') = chunks_of tr ++ chunks_of tr'.
Proof. unfold chunks. now rewrite sends_app, map_app. Qed.

Lemma chunks_progress st : chunks_of (progress_of st) = [].
Proof. unfold chunks. now rewrite sends_progress. Qed.

Lemma chunk_at_length idx0 :
  (idx0 <= total)%nat ->
  length (chunk_at idx0) = Nat.min CHUNK_SAMPLES (total - idx0).
Proof.
  intros H. unfold Tx.chunk_at, slice.
  rewrite length_firstn, length_skipn. lia.
Qed.

(** *** One non-looping pass *)

Lemma noloop_done env st :
  (total <= idx st)%nat -> fst (fst (loop false env st)) = [].
Proof.
  intros H. destruct env as [|r env]; [reflexivity|].
  now rewrite loop_exhausted.
Qed.

Lemma noloop_chunks_step n env st :
  (idx st < total)%nat ->
  chunks_of (fst (fst (loop false (Sent n :: env) st))) =
  chunk_at (idx st)
    :: chunks_of (fst (fst (loop false env (after_send st (idx st))))).
Proof.
  intros H. rewrite loop_sent by auto. cbn [fst snd].
  unfold Tx.cursor. destruct (Nat.leb_spec (total - idx st) 0); [lia|].
  change (Send complex64 ?c ?m ?r :: ?l) with ([Send complex64 c m r] ++ l).
  now rewrite !chunks_app, chunks_progress.
Qed.

Lemma noloop_stream env :
  all_sent env -> forall st, (idx st <= total)%nat ->
  concat (chunks_of (fst (fst (loop false env st)))) =
  firstn (length env * CHUNK_SAMPLES) (skipn (idx st) iq_data).
Proof.
  induction 1 as [|r env Hr Henv IH]; intros st Hst.
  - reflexivity.
  - destruct r as [n|]; [clear Hr|discriminate].
    destruct (Nat.eq_dec (idx st) total) as [E|E].
    + rewrite loop_exhausted by lia. rewrite E, skipn_all, firstn_nil.
      reflexivity.
    + rewrite noloop_chunks_step by lia. cbn [concat length Nat.mul].
      rewrite IH by (cbn; lia). cbn [idx Tx.after_send].
      rewrite firstn_plus, skipn_skipn. unfold Tx.chunk_at, slice.
      replace (idx st + Nat.min CHUNK_SAMPLES (total - idx st) - idx st)%nat
        with (Nat.min CHUNK_SAMPLES (total - idx st)) by lia.
      destruct (Nat.le_gt_cases CHUNK_SAMPLES (total - idx st)) as [Hc|Hc].
      * rewrite Nat.min_l by lia. do 3 f_equal. lia.
      * rewrite Nat.min_r by lia.
        rewrite !(firstn_all2 (n := total - idx st))
          by (rewrite length_skipn; lia).
        rewrite (firstn_all2 (n := CHUNK_SAMPLES))
          by (rewrite length_skipn; lia).
        f_equal.
        rewrite !(skipn_all2 (n := _ + _)) by lia.
        now rewrite !firstn_nil.
Qed.

Lemma noloop_chunk_sizes env :
  all_sent env -> forall st, (idx st <= total)%nat ->
  let cs := chunks_of (fst (fst (loop false env st))) in
  Forall (fun c => (length c <= CHUNK_SAMPLES)%nat) cs
  /\ Forall (fun c => length c = CHUNK_SAMPLES) (removelast cs)
  /\ Forall (fun c => (1 <= CHUNK_SAMPLES -> 1 <= length c)%nat) cs.
Proof.
  induction 1 as [|r env Hr Henv IH]; intros st Hst.
  - cbn. repeat split; constructor.
  - destruct r as [n|]; [clear Hr|discriminate].
    destruct (Nat.eq_dec (idx st) total) as [E|E].
    + rewrite loop_exhausted by lia. cbn. repeat split; constructor.
    + rewrite noloop_chunks_step by lia.
      assert (Hlen := chunk_at_length (idx st) Hst).
      destruct (IH (after_send st (idx st))) as (H1 & H2 & H3);
        [cbn; lia|].
      cbn zeta. repeat split.
      * constructor; [lia|exact H1].
      * cbn [removelast].
        destruct (chunks_of (fst (fst (loop false env (after_send st (idx st))))))
          as [|c cs] eqn:Ecs; [constructor|].
        constructor; [|exact H2].
        destruct (Nat.le_gt_cases CHUNK_SAMPLES (total - idx st)) as [Hc|Hc];
          [lia|].
        rewrite noloop_done in Ecs by (cbn; lia). discriminate.
      * constructor; [lia|exact H3].
Qed.

(** *** The looping stream *)

Lemma looping_chunks_step n env st :
  chunks_of (fst (fst (loop true (Sent n :: env) st))) =
  chunk_at (cursor st)
    :: chunks_of (fst (fst (loop true env (after_send st (cursor st))))).
Proof.
  rewrite loop_sent by auto. cbn [fst snd].
  change (Send complex64 ?c ?m ?r :: ?l) with ([Send complex64 c m r] ++ l).
  now rewrite !chunks_app, chunks_progress.
Qed.

Lemma cursor_bound st :
  (1 <= total)%nat -> (idx st <= total)%nat ->
  (cursor st < total)%nat /\ (cursor st mod total = idx st mod total)%nat.
Proof.
  intros HL Hst. unfold Tx.cursor.
  destruct (Nat.leb_spec (total - idx st) 0) as [H|H].
  - split; [lia|]. replace (idx st) with total by lia.
    rewrite Nat.Div0.mod_same. apply Nat.mod_small. lia.
  - split; [lia|reflexivity].
Qed.

Lemma looping_stream env :
  all_sent env -> (1 <= total)%nat -> (1 <= CHUNK_SAMPLES)%nat ->
  forall st, (idx st <= total)%nat ->
  let cs := chunks_of (fst (fst (loop true env st))) in
  (forall g, (g < length (concat cs))%nat ->
     nth_error (concat cs) g = nth_error iq_data ((idx st + g) mod total))
  /\ (length env <= length (concat cs))%nat
  /\ Forall (fun c => (1 <= length c <= CHUNK_SAMPLES)%nat) cs.
Proof.
  intros Henv HL HC. induction Henv as [|r env Hr Henv IH]; intros st Hst.
  - cbn. repeat split; [intros g Hg; lia|lia|constructor].
  - destruct r as [n|]; [clear Hr|discriminate].
    rewrite looping_chunks_step. cbn zeta.
    destruct (cursor_bound st HL Hst) as [Hc Hmod].
    assert (Hlen := chunk_at_length (cursor st) (Nat.lt_le_incl _ _ Hc)).
    destruct (IH (after_send st (cursor st))) as (H1 & H2 & H3);
      [cbn; lia|].
    cbn [concat]. rewrite length_app. repeat split.
    + intros g Hg.
      rewrite (Nat.Div0.add_mod (idx st)), <- Hmod, <- Nat.Div0.add_mod.
      destruct (Nat.lt_ge_cases g (length (chunk_at (cursor st)))) as [Hlt|Hge].
      * rewrite nth_error_app1 by exact Hlt.
        unfold Tx.chunk_at, slice.
        rewrite nth_error_firstn, nth_error_skipn.
        rewrite Hlen in Hlt.
        destruct (Nat.ltb_spec g
                    (cursor st + Nat.min CHUNK_SAMPLES (total - cursor st)
                     - cursor st)); [|lia].
        f_equal. symmetry. apply Nat.mod_small. lia.
      * rewrite nth_error_app2 by exact Hge.
        rewrite H1 by lia. f_equal. cbn [idx Tx.after_send].
        rewrite <- Hlen. f_equal. lia.
    + cbn [length]. lia.
    + constructor; [lia|exact H3].
Qed.

(** C2. With every [send] returning, a chunk size of at least one and a
    buffer of at least one sample: in non-looping mode, once the stop
    event stays clear for the whole pass, the chunks sent concatenate to
    the buffer, no chunk is longer than the chunk size and every chunk but
    the last has exactly that size; in looping mode the sample at offset
    [g] of the concatenated chunks is [iq_data[g mod total]], and every
    iteration sends at least one sample. *)
Theorem tx_chunking (env : list send_result) :
  all_sent env -> (1 <= total)%nat -> (1 <= CHUNK_SAMPLES)%nat ->
  ((total <= length env * CHUNK_SAMPLES)%nat ->
   let cs := data_chunks complex64 false CHUNK_SAMPLES iq_data env in
   concat cs = iq_data
   /\ Forall (fun c => (1 <= length c <= CHUNK_SAMPLES)%nat) cs
   /\ Forall (fun c => length c = CHUNK_SAMPLES) (removelast cs))
  /\ (let cs := data_chunks complex64 true CHUNK_SAMPLES iq_data env in
      (forall g, (g < length (concat cs))%nat ->
         nth_error (concat cs) g = nth_error iq_data (g mod total))
      /\ (length env <= length (concat cs))%nat
      /\ Forall (fun c => (1 <= length c <= CHUNK_SAMPLES)%nat) cs).
Proof.
  intros Henv HL HC. split.
  - intros Hpass. unfold data_chunks. cbn zeta.
    assert (H0 : (idx st_init <= total)%nat) by (cbn; lia).
    destruct (noloop_chunk_sizes env Henv st_init H0) as (H1 & H2 & H3).
    repeat split.
    + rewrite noloop_stream by auto. cbn [idx st_init skipn].
      apply firstn_all2. exact Hpass.
    + rewrite Forall_forall in *. intros c Hc.
      specialize (H1 c Hc). specialize (H3 c Hc). lia.
    + exact H2.
  - unfold data_chunks.
    apply (looping_stream env Henv HL HC st_init). cbn. lia.
Qed.

(** *** Composition of environments *)

Lemma loop_app LOOP_FILE env1 env2 :
  forall st,
  loop LOOP_FILE (env1 ++ env2) st =
  match snd (loop LOOP_FILE env1 st) with
  | StopObserved =>
      (fst (fst (loop LOOP_FILE env1 st))
         ++ fst (fst (loop LOOP_FILE env2 (snd (fst (loop LOOP_FILE env1 st))))),
       snd (fst (loop LOOP_FILE env2 (snd (fst (loop LOOP_FILE env1 st))))),
       snd (loop LOOP_FILE env2 (snd (fst (loop LOOP_FILE env1 st)))))
  | _ => loop LOOP_FILE env1 st
  end.
Proof.
  induction env1 as [|r env1 IH]; intros st.
  - cbn [app]. rewrite loop_nil. cbn.
    now destruct (tx_loop _ _ _ _ env2 st) as [[? ?] ?].
  - cbn [app].
    assert (Hcase : ((idx st < total)%nat \/ LOOP_FILE = true)
                    \/ (LOOP_FILE = false /\ (total <= idx st)%nat)).
    { destruct LOOP_FILE; destruct (Nat.lt_ge_cases (idx st) total); auto. }
    destruct Hcase as [Hrun|[-> Hge]].
    + destruct r as [n|].
      * rewrite !loop_sent by auto. cbn [fst snd]. rewrite IH.
        destruct (snd (loop LOOP_FILE env1 _)) eqn:E;
          cbn [fst snd app]; rewrite ?E, <- ?app_assoc; reflexivity.
      * now rewrite !loop_raised by auto.
    + now rewrite !loop_exhausted by lia.
Qed.

Lemma all_sent_exit LOOP_FILE env :
  all_sent env -> forall st,
  LOOP_FILE = true \/ (idx st + length env * CHUNK_SAMPLES < total)%nat ->
  snd (loop LOOP_FILE env st) = StopObserved
  /\ (LOOP_FILE = true
      \/ idx (snd (fst (loop LOOP_FILE env st)))
         = (idx st + length env * CHUNK_SAMPLES)%nat).
Proof.
  induction 1 as [|r env Hr Henv IH]; intros st Hst.
  - cbn. split; [reflexivity|right; lia].
  - destruct r as [n|]; [clear Hr|discriminate].
    cbn [length Nat.mul] in Hst.
    rewrite loop_sent by (destruct Hst; [auto|left; lia]). cbn [fst snd].
    destruct Hst as [->|Hst].
    + destruct (IH (after_send st (cursor st))) as [H1 _]; auto.
    + assert (Hcur : cursor st = idx st).
      { unfold Tx.cursor.
        destruct (Nat.leb_spec (total - idx st) 0); [lia|reflexivity]. }
      rewrite Hcur.
      destruct (IH (after_send st (idx st))) as [H1 H2].
      { right. cbn [idx Tx.after_send]. lia. }
      split; [exact H1|].
      destruct H2 as [H2|H2]; [left; exact H2|right].
      rewrite H2. cbn [idx Tx.after_send length Nat.mul]. lia.
Qed.

(** *** Burst flags *)

Lemma tx_thread_fn_eq LOOP_FILE env flush :
  tx_thread_fn complex64 LOOP_FILE CHUNK_SAMPLES iq_data env flush =
  fst (fst (loop LOOP_FILE env st_init))
    ++ [Send complex64 []
             (set_end_of_burst (md (snd (fst (loop LOOP_FILE env st_init)))) true)
             flush].
Proof.
  unfold tx_thread_fn.
  now destruct (tx_loop _ _ _ _ env st_init) as [[evs st] why].
Qed.

Lemma sends_cons_send c m r (tr : list (event complex64)) :
  sends_of (Send complex64 c m r :: tr) = (c, m, r) :: sends_of tr.
Proof. reflexivity. Qed.

Lemma loop_burst_flags LOOP_FILE env :
  forall st,
  end_of_burst (md st) = false ->
  start_of_burst (md st) = first st ->
  Forall (fun s => end_of_burst (snd (fst s)) = false)
         (sends_of (fst (fst (loop LOOP_FILE env st))))
  /\ end_of_burst (md (snd (fst (loop LOOP_FILE env st)))) = false
  /\ match sends_of (fst (fst (loop LOOP_FILE env st))) with
     | [] => md (snd (fst (loop LOOP_FILE env st))) = md st
     | s :: rest =>
         start_of_burst (snd (fst s)) = first st
         /\ Forall (fun s' => start_of_burst (snd (fst s')) = false) rest
         /\ start_of_burst (md (snd (fst (loop LOOP_FILE env st))))
            = first st && negb (returned (snd s))
     end.
Proof.
  induction env as [|r env IH]; intros st He Hs.
  - cbn. auto.
  - assert (Hcase : ((idx st < total)%nat \/ LOOP_FILE = true)
                    \/ (LOOP_FILE = false /\ (total <= idx st)%nat)).
    { destruct LOOP_FILE; destruct (Nat.lt_ge_cases (idx st) total); auto. }
    destruct Hcase as [Hrun|[-> Hge]].
    + destruct r as [n|].
      * rewrite loop_sent by auto. cbn [fst snd].
        rewrite sends_cons_send, sends_app, sends_progress. cbn [app].
        destruct (IH (after_send st (cursor st))) as (A & B & D).
        { cbn. destruct (first st); exact He. }
        { cbn. destruct (first st); [reflexivity|exact Hs]. }
        split; [constructor; [exact He|exact A]|].
        split; [exact B|].
        cbn [fst snd returned negb]. rewrite andb_false_r.
        split; [exact Hs|].
        destruct (sends_of (fst (fst (loop LOOP_FILE env _)))) as [|s rest].
        -- split; [constructor|]. rewrite D. cbn.
           destruct (first st); [reflexivity|]. now rewrite Hs.
        -- destruct D as (D1 & D2 & D3). split; [constructor; assumption|].
           exact D3.
      * rewrite loop_raised by auto. cbn.
        repeat split; auto. now rewrite andb_true_r.
    + rewrite loop_exhausted by lia. cbn. auto.
Qed.

Lemma filter_none {A : Type} (f : A -> bool) (l : list A) :
  Forall (fun x => f x = false) l -> filter f l = [].
Proof.
  induction 1 as [|x l Hx Hl IH]; [reflexivity|].
  cbn. now rewrite Hx.
Qed.

(** C3 (amended). In every session the terminal zero-length flush is the
    last call of [send] and the only one that carries end-of-burst, on
    every termination path of the loop.  The number of calls that carry
    start-of-burst is two when the first data [send] raised and one
    otherwise; when the first data [send] did not raise, the first call of
    the session carries start-of-burst and no later call does. *)
Theorem tx_burst_metadata (LOOP_FILE : bool) (env : list send_result)
        (flush : send_result) :
  let tr := tx_thread_fn complex64 LOOP_FILE CHUNK_SAMPLES iq_data env flush in
  (exists body mdf,
      sends_of tr = body ++ [([], mdf, flush)]
      /\ end_of_burst mdf = true
      /\ Forall (fun s => end_of_burst (snd (fst s)) = false) body)
  /\ count_eob complex64 tr = 1%nat
  /\ count_sob complex64 tr
     = (if first_data_send_raised complex64 LOOP_FILE CHUNK_SAMPLES iq_data env
        then 2 else 1)%nat
  /\ (first_data_send_raised complex64 LOOP_FILE CHUNK_SAMPLES iq_data env = false ->
      count_sob complex64 tr = 1%nat
      /\ exists s rest,
          sends_of tr = s :: rest
          /\ start_of_burst (snd (fst s)) = true
          /\ Forall (fun s' => start_of_burst (snd (fst s')) = false) rest).
Proof.
  cbn zeta. rewrite tx_thread_fn_eq.
  destruct (loop_burst_flags LOOP_FILE env st_init eq_refl eq_refl)
    as (A & B & D).
  unfold first_data_send_raised, count_eob, count_sob.
  rewrite sends_app. cbn [sends flat_map app].
  set (body := sends_of (fst (fst (loop LOOP_FILE env st_init)))) in *.
  set (st := snd (fst (loop LOOP_FILE env st_init))) in *.
  assert (Hsob : length (filter (fun s => start_of_burst (snd (fst s)))
                          (body ++ [([], set_end_of_burst (md st) true, flush)]))
                 = (if match body with
                        | (_, _, SendRaised) :: _ => true
                        | _ => false
                        end then 2 else 1)%nat).
  { destruct body as [|[[c m] r] rest].
    - cbn. now rewrite D.
    - cbn [fst snd first st_init] in D. destruct D as (D1 & D2 & D3).
      cbn [app filter fst snd]. rewrite D1, filter_app, (filter_none _ rest D2).
      cbn [app filter fst snd set_end_of_burst start_of_burst]. rewrite D3.
      now destruct r. }
  split; [|split; [|split]].
  - exists body, (set_end_of_burst (md st) true). auto.
  - rewrite filter_app, (filter_none _ body A). reflexivity.
  - exact Hsob.
  - intros Hfirst. rewrite Hfirst in Hsob. split; [exact Hsob|].
    destruct body as [|[[c m] r] rest].
    + eexists _, []. cbn. rewrite D. repeat split. constructor.
    + cbn [fst snd first st_init] in D. destruct D as (D1 & D2 & D3).
      eexists _, _. cbn [app]. split; [reflexivity|]. split; [exact D1|].
      apply Forall_app. split; [exact D2|]. constructor; [|constructor].
      cbn. rewrite D3. now destruct r.
Qed.

(** C5 (amended). A [send] that raises in the loop is logged and ends the
    loop at once: whatever the environment would have allowed afterwards,
    no further data chunk is sent, and the thread goes on to the
    end-of-burst flush. *)
Theorem tx_send_failure_ends_loop (LOOP_FILE : bool)
        (env1 env2 : list send_result) (flush : send_result) :
  all_sent env1 ->
  LOOP_FILE = true \/ (length env1 * CHUNK_SAMPLES < total)%nat ->
  let evs1 := fst (fst (loop LOOP_FILE env1 st_init)) in
  let st1 := snd (fst (loop LOOP_FILE env1 st_init)) in
  snd (loop LOOP_FILE (env1 ++ SendRaised :: env2) st_init) = SendFailed
  /\ tx_thread_fn complex64 LOOP_FILE CHUNK_SAMPLES iq_data
                  (env1 ++ SendRaised :: env2) flush
     = evs1 ++ [Send complex64 (chunk_at (cursor st1)) (md st1) SendRaised;
                Print complex64 TxException;
                Send complex64 [] (set_end_of_burst (md st1) true) flush].
Proof.
  intros Henv Hreach. cbn zeta.
  destruct (all_sent_exit LOOP_FILE env1 Henv st_init) as [Hexit Hidx].
  { destruct Hreach; [auto|right; cbn; lia]. }
  assert (Hrun : (idx (snd (fst (loop LOOP_FILE env1 st_init))) < total)%nat
                 \/ LOOP_FILE = true).
  { destruct Hreach as [H|H]; [auto|].
    destruct Hidx as [H'|H']; [auto|]. left. rewrite H'. cbn. lia. }
  rewrite tx_thread_fn_eq, loop_app, Hexit, loop_raised by exact Hrun.
  cbn [fst snd md]. split; [reflexivity|].
  now rewrite <- app_assoc.
Qed.

End TxFacts.

(** C2, on a buffer of three samples sent in chunks of two. *)
Lemma tx_chunking_witness :
  let env := [Tx.Sent 2; Tx.Sent 1; Tx.Sent 2] in
  let cs := Tx.data_chunks nat false 2 [10; 20; 30]%nat env in
  let cs' := Tx.data_chunks nat true 2 [10; 20; 30]%nat env in
  (concat cs = [10; 20; 30]%nat
   /\ Forall (fun c => (1 <= length c <= 2)%nat) cs
   /\ Forall (fun c => length c = 2%nat) (removelast cs))
  /\ (forall g, (g < length (concat cs'))%nat ->
        nth_error (concat cs') g = nth_error [10; 20; 30]%nat (g mod 3)).
Proof.
  intros env cs cs'.
  assert (Henv : Tx.all_sent env) by (repeat constructor).
  destruct (tx_chunking nat 2 [10; 20; 30]%nat env Henv) as [H1 H2];
    [simpl; lia|lia|].
  split.
  - apply H1. simpl. lia.
  - apply H2.
Defined.

(** C3 as stated fails when the first data [send] and the flush both
    raise: two calls of [send] carry start-of-burst, and no call that
    returned carries start-of-burst or end-of-burst. *)
Lemma tx_burst_metadata_counterexample :
  let tr := Tx.tx_thread_fn nat true 2 [1; 2; 3]%nat
                            [Tx.SendRaised] Tx.SendRaised in
  Tx.sends nat tr
  = [([1; 2]%nat, Tx.md_init, Tx.SendRaised);
     ([], Tx.set_end_of_burst Tx.md_init true, Tx.SendRaised)]
  /\ Tx.count_sob nat tr = 2%nat
  /\ Tx.count_sob nat (Tx.delivered nat tr) = 0%nat
  /\ Tx.count_eob nat (Tx.delivered nat tr) = 0%nat.
Proof. repeat split. Qed.

(** C3 (amended), on a non-looping pass over three samples. *)
Lemma tx_burst_metadata_witness :
  let tr := Tx.tx_thread_fn nat false 2 [1; 2; 3]%nat
                            [Tx.Sent 2; Tx.Sent 1] (Tx.Sent 0) in
  Tx.count_sob nat tr = 1%nat
  /\ exists s rest,
      Tx.sends nat tr = s :: rest
      /\ Tx.start_of_burst (snd (fst s)) = true
      /\ Forall (fun s' => Tx.start_of_burst (snd (fst s')) = false) rest.
Proof.
  intros tr.
  apply (tx_burst_metadata nat 2 [1; 2; 3]%nat false
           [Tx.Sent 2; Tx.Sent 1] (Tx.Sent 0)).
  reflexivity.
Defined.

(** C5 as stated fails: the first [send] raises while two more iterations
    would have found the stop event clear and the buffer still holds two
    samples; the loop ends there, having attempted one chunk. *)
Lemma tx_send_failure_counterexample :
  let env := [Tx.SendRaised; Tx.Sent 1; Tx.Sent 1] in
  snd (Tx.tx_loop nat false 1 [7; 8]%nat env Tx.st_init) = Tx.SendFailed
  /\ Tx.data_chunks nat false 1 [7; 8]%nat env = [[7%nat]]
  /\ Tx.chunks nat (Tx.tx_thread_fn nat false 1 [7; 8]%nat env (Tx.Sent 0))
     = [[7%nat]; []].
Proof. repeat split. Qed.

(** C5 (amended), with a failure on the second chunk of three. *)
Lemma tx_send_failure_ends_loop_witness :
  snd (Tx.tx_loop nat false 1 [7; 8; 9]%nat
                  ([Tx.Sent 1] ++ Tx.SendRaised :: [Tx.Sent 1]) Tx.st_init)
  = Tx.SendFailed.
Proof.
  assert (Henv : Tx.all_sent [Tx.Sent 1]) by (repeat constructor).
  apply (tx_send_failure_ends_loop nat 1 [7; 8; 9]%nat false
           [Tx.Sent 1] [Tx.Sent 1] (Tx.Sent 0) Henv).
  right. simpl. lia.
Defined.

(* ------------------------------------------------------------------ *)
(** ** Receive loop *)

Section RxFacts.
Import Rx.

Variable complex64 : Type.
Variable tobytes : complex64 -> list byte.

(** A complex64 item is eight bytes wide. *)
Hypothesis tobytes_itemsize : forall s, length (tobytes s) = 8%nat.

Local Abbreviation iteration := (rx_iteration complex64 tobytes).
Local Abbreviation loop := (rx_loop complex64 tobytes).
Local Abbreviation thread := (rx_thread_fn complex64 tobytes).
Local Abbreviation count := (valid_count complex64).

Lemma tobytes_length (l : list complex64) :
  length (flat_map tobytes l) = (8 * length l)%nat.
Proof.
  induction l as [|s l IH]; [reflexivity|].
  cbn [flat_map]. rewrite length_app, IH, tobytes_itemsize. cbn [length]. lia.
Qed.

Lemma rx_iteration_appends (fh : list byte) (r : recv_result complex64) :
  exists w, fst (iteration fh r) = fh ++ w
            /\ (within_buffer complex64 r -> length w = (8 * count r)%nat).
Proof.
  destruct r as [|num code buf];
    unfold rx_iteration, valid_count, within_buffer.
  - exists []. now rewrite app_nil_r.
  - destruct code; try (exists []; now rewrite app_nil_r).
    destruct (Nat.ltb_spec 0 num); cbn [fst].
    + eexists. split; [reflexivity|]. intros Hb.
      rewrite tobytes_length, length_firstn. lia.
    + exists []. rewrite app_nil_r. split; [reflexivity|]. cbn [length]. lia.
Qed.

Lemma rx_loop_fst_cons fh r env :
  fst (loop fh (r :: env)) = fst (loop (fst (iteration fh r)) env).
Proof.
  cbn [rx_loop]. destruct (rx_iteration _ _ fh r) as [fh' out].
  cbn [fst]. now destruct (rx_loop _ _ fh' env).
Qed.

Lemma rx_loop_app env1 env2 :
  forall fh, fst (loop fh (env1 ++ env2)) = fst (loop (fst (loop fh env1)) env2).
Proof.
  induction env1 as [|r env1 IH]; intros fh; [reflexivity|].
  cbn [app]. now rewrite !rx_loop_fst_cons, IH.
Qed.

Lemma rx_loop_appends env :
  forall fh, exists w,
    fst (loop fh env) = fh ++ w
    /\ (Forall (within_buffer complex64) env ->
        length w = (8 * list_sum (map count env))%nat).
Proof.
  induction env as [|r env IH]; intros fh.
  - exists []. cbn. now rewrite app_nil_r.
  - rewrite rx_loop_fst_cons.
    destruct (rx_iteration_appends fh r) as (w1 & E1 & L1).
    destruct (IH (fst (iteration fh r))) as (w2 & E2 & L2).
    exists (w1 ++ w2). split.
    + now rewrite E2, E1, app_assoc.
    + intros Hb. inversion Hb; subst.
      rewrite length_app, L1, L2 by assumption.
      unfold list_sum. cbn [map fold_right]. lia.
Qed.

(** C7. When no [recv] reports more samples than the buffer holds, the
    capture file after the iterations of [env] is eight bytes times the
    sum of the counts of the iterations that returned with no error code.
    An iteration with an error code, or whose [recv] raised, leaves the
    file as it was, whatever count it returned; every iteration only
    appends, so the file after any number of iterations is a prefix of the
    file after more. *)
Theorem rx_sink_length (env : list (recv_result complex64)) :
  Forall (within_buffer complex64) env ->
  length (fst (thread env)) = (8 * list_sum (map count env))%nat
  /\ (forall fh num code buf,
        code <> none -> fst (iteration fh (Recv complex64 num code buf)) = fh)
  /\ (forall fh, fst (iteration fh (RecvRaised complex64)) = fh)
  /\ (forall fh r, exists w, fst (iteration fh r) = fh ++ w)
  /\ (forall N, exists w,
        fst (thread env) = fst (thread (firstn N env)) ++ w).
Proof.
  intros Hb. repeat split.
  - unfold rx_thread_fn.
    destruct (rx_loop_appends env []) as (w & E & L).
    rewrite E. cbn [app]. auto.
  - intros fh num code buf Hc. destruct code; try reflexivity. congruence.
  - intros fh r. destruct (rx_iteration_appends fh r) as (w & E & _). eauto.
  - intros N. unfold rx_thread_fn.
    assert (E0 := rx_loop_app (firstn N env) (skipn N env) []).
    rewrite firstn_skipn in E0. rewrite E0.
    destruct (rx_loop_appends (skipn N env) (fst (loop [] (firstn N env))))
      as (w & E & _).
    eauto.
Qed.

End RxFacts.

(** C7, on four iterations: two samples, an overflow that reports three,
    a [recv] that raises, and an idle timeout. *)
Lemma rx_sink_length_witness :
  let tobytes := fun _ : nat => [x00; x00; x00; x00; x00; x00; x00; x00] in
  let env := [Rx.Recv nat 2 Rx.none [1; 2; 3]%nat;
              Rx.Recv nat 3 Rx.overflow [4; 5; 6]%nat;
              Rx.RecvRaised nat;
              Rx.Recv nat 0 Rx.none [4; 5; 6]%nat] in
  length (fst (Rx.rx_thread_fn nat tobytes env)) = 16%nat.
Proof.
  intros tobytes env.
  assert (Hb : Forall (Rx.within_buffer nat) env)
    by (repeat constructor; simpl; lia).
  exact (proj1 (rx_sink_length nat tobytes (fun _ => eq_refl) env Hb)).
Defined.

(* ------------------------------------------------------------------ *)
(** ** Complex sums *)

Ltac cunfold :=
  unfold Analyzer.Cadd, Analyzer.Csub, Analyzer.Cmul, Analyzer.Cconj,
    Analyzer.Cscale, Analyzer.C0, Analyzer.C1, Analyzer.RtoC in *;
  cbn [fst snd] in *.

Ltac ceq :=
  intros;
  repeat match goal with z : Analyzer.C |- _ => destruct z end;
  cunfold; apply injective_projections; cbn [fst snd]; ring.

Section ComplexFacts.
Import Analyzer.
Local Open Scope R_scope.

Lemma Cadd_0_l z : Cadd C0 z = z.
Proof. ceq. Qed.

Lemma Cadd_0_r z : Cadd z C0 = z.
Proof. ceq. Qed.

Lemma Cmul_0_l z : Cmul C0 z = C0.
Proof. ceq. Qed.

Lemma Cmul_0_r z : Cmul z C0 = C0.
Proof. ceq. Qed.

Lemma Cmul_1_r z : Cmul z C1 = z.
Proof. ceq. Qed.

Lemma Cmul_comm z w : Cmul z w = Cmul w z.
Proof. ceq. Qed.

Lemma Cmul_assoc z w u : Cmul z (Cmul w u) = Cmul (Cmul z w) u.
Proof. ceq. Qed.

Lemma Cmul_add_distr_l z w u : Cmul z (Cadd w u) = Cadd (Cmul z w) (Cmul z u).
Proof. ceq. Qed.

Lemma Cmul_add_distr_r z w u : Cmul (Cadd w u) z = Cadd (Cmul w z) (Cmul u z).
Proof. ceq. Qed.

Lemma Cconj_add z w : Cconj (Cadd z w) = Cadd (Cconj z) (Cconj w).
Proof. ceq. Qed.

Lemma Cconj_mul z w : Cconj (Cmul z w) = Cmul (Cconj z) (Cconj w).
Proof. ceq. Qed.

Lemma Cscale_add r z w : Cscale r (Cadd z w) = Cadd (Cscale r z) (Cscale r w).
Proof. ceq. Qed.

Lemma Csum_ext (f g : nat -> C) (n : nat) :
  (forall i, (i < n)%nat -> f i = g i) -> Csum f n = Csum g n.
Proof.
  induction n as [|n IH]; intros H; [reflexivity|].
  cbn [Csum]. rewrite IH, H by auto. reflexivity.
Qed.

Lemma Csum_zero (f : nat -> C) (n : nat) :
  (forall i, (i < n)%nat -> f i = C0) -> Csum f n = C0.
Proof.
  induction n as [|n IH]; intros H; [reflexivity|].
  cbn [Csum]. rewrite IH, H by auto. apply Cadd_0_l.
Qed.

Lemma Csum_add (f g : nat -> C) (n : nat) :
  Csum (fun i => Cadd (f i) (g i)) n = Cadd (Csum f n) (Csum g n).
Proof.
  induction n as [|n IH]; cbn [Csum]; [ceq|]. rewrite IH. ceq.
Qed.

Lemma Csum_mul_l (c : C) (f : nat -> C) (n : nat) :
  Cmul c (Csum f n) = Csum (fun i => Cmul c (f i)) n.
Proof.
  induction n as [|n IH]; cbn [Csum]; [ceq|].
  now rewrite Cmul_add_distr_l, IH.
Qed.

Lemma Csum_mul_r (c : C) (f : nat -> C) (n : nat) :
  Cmul (Csum f n) c = Csum (fun i => Cmul (f i) c) n.
Proof.
  induction n as [|n IH]; cbn [Csum]; [ceq|].
  now rewrite Cmul_add_distr_r, IH.
Qed.

Lemma Csum_conj (f : nat -> C) (n : nat) :
  Cconj (Csum f n) = Csum (fun i => Cconj (f i)) n.
Proof.
  induction n as [|n IH]; cbn [Csum]; [ceq|].
  now rewrite Cconj_add, IH.
Qed.

Lemma Csum_scale (r : R) (f : nat -> C) (n : nat) :
  Cscale r (Csum f n) = Csum (fun i => Cscale r (f i)) n.
Proof.
  induction n as [|n IH]; cbn [Csum]; [ceq|].
  now rewrite Cscale_add, IH.
Qed.

Lemma Csum_swap (f : nat -> nat -> C) (n m : nat) :
  Csum (fun i => Csum (fun j => f i j) m) n
  = Csum (fun j => Csum (fun i => f i j) n) m.
Proof.
  induction n as [|n IH]; cbn [Csum].
  - symmetry. now apply Csum_zero.
  - rewrite IH. symmetry. apply Csum_add.
Qed.

(** A sum with one non-zero term. *)
Lemma Csum_single (f : nat -> C) (n j0 : nat) :
  (j0 < n)%nat ->
  (forall i, (i < n)%nat -> i <> j0 -> f i = C0) ->
  Csum f n = f j0.
Proof.
  induction n as [|n IH]; intros Hj H; [lia|].
  cbn [Csum]. destruct (Nat.eq_dec j0 n) as [->|Hne].
  - rewrite Csum_zero; [apply Cadd_0_l|].
    intros i Hi. apply H; lia.
  - rewrite IH, (H n) by (auto; lia). apply Cadd_0_r.
Qed.

Lemma Csum_const_one (n : nat) : Csum (fun _ => C1) n = (INR n, 0).
Proof.
  induction n as [|n IH]; [reflexivity|].
  cbn [Csum]. rewrite IH, S_INR. cunfold. f_equal; ring.
Qed.

End ComplexFacts.

(* ------------------------------------------------------------------ *)
(** ** Roots of unity *)

Section RootsOfUnity.
Import Analyzer.
Local Open Scope R_scope.

Variable n : nat.
Hypothesis n_pos : (1 <= n)%nat.

Lemma INR_n_neq_0 : INR n <> 0.
Proof. apply not_0_INR. lia. Qed.

Lemma cis_add (a b : Z) : cis n (a + b) = Cmul (cis n a) (cis n b).
Proof.
  unfold cis, Cmul. cbn [fst snd]. rewrite plus_IZR.
  replace (2 * PI * (IZR a + IZR b) / INR n)
    with (2 * PI * IZR a / INR n + 2 * PI * IZR b / INR n)
    by (unfold Rdiv; ring).
  rewrite cos_plus, sin_plus. f_equal; ring.
Qed.

Lemma cis_0 : cis n 0 = C1.
Proof.
  unfold cis, C1.
  replace (2 * PI * 0 / INR n) with 0 by (unfold Rdiv; ring).
  now rewrite cos_0, sin_0.
Qed.

Lemma cis_opp (k : Z) : cis n (- k) = Cconj (cis n k).
Proof.
  unfold cis, Cconj. cbn [fst snd]. rewrite opp_IZR.
  replace (2 * PI * - IZR k / INR n) with (- (2 * PI * IZR k / INR n))
    by (unfold Rdiv; ring).
  now rewrite cos_neg, sin_neg.
Qed.

Lemma cis_mul_n_nat (j : nat) : cis n (Z.of_nat n * Z.of_nat j) = C1.
Proof.
  unfold cis, C1. rewrite mult_IZR, <- !INR_IZR_INZ.
  replace (2 * PI * (INR n * INR j) / INR n) with (0 + 2 * INR j * PI)
    by (field; apply INR_n_neq_0).
  now rewrite cos_period, sin_period, cos_0, sin_0.
Qed.

Lemma cis_mul_n (q : Z) : cis n (Z.of_nat n * q) = C1.
Proof.
  destruct (Z.le_gt_cases 0 q) as [H|H].
  - rewrite <- (Z2Nat.id q H). apply cis_mul_n_nat.
  - replace (Z.of_nat n * q)%Z
      with (- (Z.of_nat n * Z.of_nat (Z.to_nat (- q))))%Z by lia.
    rewrite cis_opp, cis_mul_n_nat. unfold Cconj, C1. cbn [fst snd].
    f_equal. ring.
Qed.

Lemma cis_mod (k : Z) : cis n k = cis n (k mod Z.of_nat n).
Proof.
  rewrite (Z.div_mod k (Z.of_nat n)) at 1 by lia.
  rewrite cis_add, cis_mul_n. ceq.
Qed.

Lemma cis_neq_1 (d : Z) :
  (0 < d < Z.of_nat n)%Z -> cis n d <> C1.
Proof.
  intros [Hd0 Hdn] H. apply (f_equal fst) in H. unfold cis, C1 in H.
  cbn [fst] in H.
  assert (Hn : 0 < INR n) by (apply lt_0_INR; lia).
  set (x := PI * IZR d / INR n) in *.
  replace (2 * PI * IZR d / INR n) with (2 * x) in H
    by (unfold x, Rdiv; ring).
  rewrite cos_2a_sin in H.
  assert (Hx0 : 0 < x).
  { unfold x. apply Rdiv_lt_0_compat; [|exact Hn].
    apply Rmult_lt_0_compat; [apply PI_RGT_0|]. now apply IZR_lt. }
  assert (HxPI : x < PI).
  { unfold x. apply (Rmult_lt_reg_r (INR n)); [exact Hn|].
    unfold Rdiv. rewrite Rmult_assoc, Rinv_l, Rmult_1_r by lra.
    apply Rmult_lt_compat_l; [apply PI_RGT_0|].
    rewrite INR_IZR_INZ. now apply IZR_lt. }
  assert (Hs := sin_gt_0 x Hx0 HxPI). nra.
Qed.

(** The geometric sum of a root of unity. *)
Lemma cis_geometric (d : Z) (m : nat) :
  Cmul (Csub (cis n d) C1) (Csum (fun f => cis n (d * Z.of_nat f)) m)
  = Csub (cis n (d * Z.of_nat m)) C1.
Proof.
  induction m as [|m IH].
  - cbn [Csum]. rewrite Z.mul_0_r, cis_0. ceq.
  - cbn [Csum]. rewrite Cmul_add_distr_l, IH.
    replace (d * Z.of_nat (S m))%Z with (d * Z.of_nat m + d)%Z by lia.
    rewrite cis_add. ceq.
Qed.

Lemma Cmul_integral (u z : C) : Cmul u z = C0 -> u <> C0 -> z = C0.
Proof.
  destruct u as [a b], z as [c d]. unfold Cmul, C0. cbn [fst snd].
  intros H Hu. injection H as H1 H2.
  assert (Hab : 0 < a * a + b * b).
  { destruct (Req_dec a 0) as [->|Ha].
    - destruct (Req_dec b 0) as [->|Hb]; [congruence|nra].
    - nra. }
  assert (Hc : (a * a + b * b) * c = 0).
  { replace ((a * a + b * b) * c)
      with (a * (a * c - b * d) + b * (a * d + b * c)) by ring.
    rewrite H1, H2. ring. }
  assert (Hd : (a * a + b * b) * d = 0).
  { replace ((a * a + b * b) * d)
      with (a * (a * d + b * c) - b * (a * c - b * d)) by ring.
    rewrite H1, H2. ring. }
  apply Rmult_integral in Hc, Hd.
  f_equal; [destruct Hc|destruct Hd]; lra.
Qed.

Lemma cis_sum (d : Z) :
  Csum (fun f => cis n (d * Z.of_nat f)) n
  = if (d mod Z.of_nat n =? 0)%Z then (INR n, 0) else C0.
Proof.
  destruct (Z.eqb_spec (d mod Z.of_nat n) 0) as [E|E].
  - rewrite <- Csum_const_one. apply Csum_ext. intros f _.
    apply Z.mod_divide in E; [|lia]. destruct E as [q ->].
    replace (q * Z.of_nat n * Z.of_nat f)%Z
      with (Z.of_nat n * (q * Z.of_nat f))%Z by lia.
    apply cis_mul_n.
  - apply (Cmul_integral (Csub (cis n d) C1)).
    + rewrite cis_geometric, Z.mul_comm, cis_mul_n. ceq.
    + intros H. apply (cis_neq_1 (d mod Z.of_nat n)).
      * assert (Hm := Z.mod_pos_bound d (Z.of_nat n)). lia.
      * rewrite <- cis_mod. destruct (cis n d) as [a b].
        unfold Csub, C0, C1 in *. cbn [fst snd] in *.
        injection H as H1 H2. f_equal; lra.
Qed.

End RootsOfUnity.

(* ------------------------------------------------------------------ *)
(** ** The transform-domain product is the circular cross-correlation *)

Section ArrayFacts.
Import Analyzer.

Lemma nth_map_seq {A : Type} (g : nat -> A) (n k : nat) (d : A) :
  (k < n)%nat -> nth k (map g (seq 0 n)) d = g k.
Proof.
  intros H. rewrite (nth_indep _ d (g 0%nat))
    by (now rewrite length_map, length_seq).
  now rewrite map_nth, seq_nth.
Qed.

Lemma map2_length {A B D : Type} (f : A -> B -> D) (l : list A) :
  forall l', length (map2 f l l') = Nat.min (length l) (length l').
Proof.
  induction l as [|x l IH]; intros [|y l']; cbn; auto.
Qed.

Lemma map2_nth {A B D : Type} (f : A -> B -> D) (l : list A) :
  forall l' k d dA dB,
    (k < length l)%nat -> (k < length l')%nat ->
    nth k (map2 f l l') d = f (nth k l dA) (nth k l' dB).
Proof.
  induction l as [|x l IH]; intros [|y l'] k d dA dB Hl Hl';
    cbn in Hl, Hl'; try lia.
  destruct k as [|k]; cbn; [reflexivity|]. apply IH; lia.
Qed.

Lemma resize_length (a : list C) (n : nat) : length (resize a n) = n.
Proof.
  unfold resize. rewrite length_app, length_firstn, repeat_length. lia.
Qed.

Lemma resize_pad (a : list C) (n : nat) :
  (length a <= n)%nat -> resize a n = a ++ repeat C0 (n - length a).
Proof. intros H. unfold resize. now rewrite firstn_all2. Qed.

Lemma np_fft_length (a : list C) (n : nat) : length (np_fft a n) = n.
Proof. unfold np_fft. now rewrite length_map, length_seq. Qed.

Lemma np_ifft_length (X : list C) : length (np_ifft X) = length X.
Proof. unfold np_ifft. now rewrite length_map, length_seq. Qed.

Lemma np_fft_nth (a : list C) (n k : nat) :
  (k < n)%nat ->
  nth k (np_fft a n) C0
  = Csum (fun j => Cmul (nth j (resize a n) C0)
                        (cis n (- (Z.of_nat k * Z.of_nat j)))) n.
Proof. intros H. unfold np_fft. now rewrite nth_map_seq. Qed.

Lemma np_ifft_nth (X : list C) (j : nat) :
  (j < length X)%nat ->
  nth j (np_ifft X) C0
  = Cscale (/ INR (length X))
           (Csum (fun k => Cmul (nth k X C0)
                                (cis (length X) (Z.of_nat j * Z.of_nat k)))
                 (length X)).
Proof. intros H. unfold np_ifft. now rewrite nth_map_seq. Qed.

End ArrayFacts.

Section Correlation.
Import Analyzer.
Local Open Scope R_scope.

Variable n : nat.
Hypothesis n_pos : (1 <= n)%nat.
Variables a b : list C.

Local Abbreviation X := (fun m => nth m (resize a n) C0).
Local Abbreviation Y := (fun j => nth j (resize b n) C0).

Lemma spectrum_product_nth (f : nat) :
  (f < n)%nat ->
  nth f (map2 Cmul (np_fft b n) (map Cconj (np_fft a n))) C0
  = Cmul (Csum (fun j => Cmul (Y j) (cis n (- (Z.of_nat f * Z.of_nat j)))) n)
         (Csum (fun m => Cmul (Cconj (X m)) (cis n (Z.of_nat f * Z.of_nat m))) n).
Proof.
  intros Hf.
  rewrite (map2_nth _ _ _ _ _ C0 (Cconj C0))
    by (now rewrite ?length_map, np_fft_length).
  rewrite map_nth, !np_fft_nth by exact Hf.
  rewrite Csum_conj. f_equal. apply Csum_ext. intros m _.
  now rewrite Cconj_mul, <- cis_opp, Z.opp_involutive.
Qed.

Lemma shift_mod_zero (k m j : nat) :
  (j < n)%nat ->
  ((Z.of_nat k + Z.of_nat m - Z.of_nat j) mod Z.of_nat n = 0)%Z
  <-> j = ((m + k) mod n)%nat.
Proof.
  intros Hj.
  assert (Hr := Nat.mod_upper_bound (m + k) n ltac:(lia)).
  assert (Hs := Nat.div_mod_eq (m + k) n).
  set (r := ((m + k) mod n)%nat) in *.
  set (q := ((m + k) / n)%nat) in *.
  replace (Z.of_nat k + Z.of_nat m - Z.of_nat j)%Z
    with ((Z.of_nat r - Z.of_nat j) + Z.of_nat q * Z.of_nat n)%Z by nia.
  rewrite Z.mod_add by lia.
  destruct (Nat.le_gt_cases j r) as [Hle|Hgt].
  - rewrite Z.mod_small by lia. lia.
  - replace (Z.of_nat r - Z.of_nat j)%Z
      with ((Z.of_nat r - Z.of_nat j + Z.of_nat n) + (-1) * Z.of_nat n)%Z
      by lia.
    rewrite Z.mod_add, Z.mod_small by lia. lia.
Qed.

(** The correlation theorem: the inverse transform of [B * conj(A)] at
    index [k] is [sum_m conj(a[m]) * b[(m + k) mod n]] on the padded
    arrays. *)
Lemma xcorr_via_fft (k : nat) :
  (k < n)%nat ->
  nth k (np_ifft (map2 Cmul (np_fft b n) (map Cconj (np_fft a n)))) C0
  = circular_xcorr (resize a n) (resize b n) n k.
Proof.
  intros Hk.
  assert (Hlen : length (map2 Cmul (np_fft b n) (map Cconj (np_fft a n))) = n).
  { rewrite map2_length, length_map, !np_fft_length. lia. }
  rewrite np_ifft_nth by (rewrite Hlen; exact Hk). rewrite Hlen.
  (* every term as a double sum *)
  rewrite (Csum_ext _
    (fun f => Csum (fun m => Csum (fun j =>
       Cmul (Cmul (Cconj (X m)) (Y j))
            (cis n ((Z.of_nat k + Z.of_nat m - Z.of_nat j) * Z.of_nat f))) n) n)).
  2:{ intros f Hf. rewrite spectrum_product_nth by exact Hf.
      rewrite (Cmul_comm (Csum _ _) (Csum _ _)), !Csum_mul_r.
      apply Csum_ext. intros m _.
      rewrite Csum_mul_l, Csum_mul_r. apply Csum_ext. intros j _.
      replace ((Z.of_nat k + Z.of_nat m - Z.of_nat j) * Z.of_nat f)%Z
        with (- (Z.of_nat f * Z.of_nat j)
              + (Z.of_nat f * Z.of_nat m + Z.of_nat k * Z.of_nat f))%Z by lia.
      rewrite !cis_add.
      generalize (cis n (- (Z.of_nat f * Z.of_nat j))),
                 (cis n (Z.of_nat f * Z.of_nat m)),
                 (cis n (Z.of_nat k * Z.of_nat f)),
                 (nth m (resize a n) C0), (nth j (resize b n) C0).
      ceq. }
  (* sum over the frequency first *)
  rewrite Csum_swap.
  rewrite (Csum_ext _
    (fun m => Cmul (Cmul (Cconj (X m)) (Y ((m + k) mod n)%nat)) (INR n, 0))).
  2:{ intros m _. rewrite Csum_swap.
      rewrite (Csum_single _ n ((m + k) mod n)%nat).
      - rewrite <- Csum_mul_l, cis_sum by exact n_pos.
        destruct (shift_mod_zero k m ((m + k) mod n)) as [_ H];
          [apply Nat.mod_upper_bound; lia|].
        now rewrite (H eq_refl), Z.eqb_refl.
      - apply Nat.mod_upper_bound. lia.
      - intros j Hj Hne. rewrite <- Csum_mul_l, cis_sum by exact n_pos.
        destruct (Z.eqb_spec
                    ((Z.of_nat k + Z.of_nat m - Z.of_nat j) mod Z.of_nat n) 0)
          as [E|E]; [|apply Cmul_0_r].
        apply shift_mod_zero in E; [contradiction|exact Hj]. }
  unfold circular_xcorr. rewrite Csum_scale. apply Csum_ext. intros m _.
  assert (Hn := INR_n_neq_0 n n_pos).
  generalize (nth m (resize a n) C0), (nth ((m + k) mod n) (resize b n) C0).
  intros [x1 x2] [y1 y2]. cunfold. f_equal; field; exact Hn.
Qed.

End Correlation.

(* ------------------------------------------------------------------ *)
(** ** The analyzer *)

Section AnalyzerFacts.
Import Py Analyzer.
Local Open Scope R_scope.

(** *** The transform length *)

Lemma int_ceil_log2_pos (m : Z) :
  (1 <= m)%Z -> int_ceil_log2 m = Ok (Z.log2_up m).
Proof.
  intros H. unfold int_ceil_log2.
  destruct (Z.ltb_spec m 0); [lia|].
  destruct (Z.eqb_spec m 0); [lia|reflexivity].
Qed.

Lemma fft_size_nat (m : nat) :
  Z.to_nat (Z.shiftl 1 (Z.log2_up (Z.of_nat m)))
  = (2 ^ Z.to_nat (Z.log2_up (Z.of_nat m)))%nat.
Proof.
  assert (H := Z.log2_up_nonneg (Z.of_nat m)).
  rewrite Z.shiftl_1_l. apply Nat2Z.inj.
  rewrite Nat2Z.inj_pow, !Z2Nat.id; try lia.
Qed.

Lemma fft_size_spec (m : nat) :
  (1 <= m)%nat ->
  let k := Z.to_nat (Z.log2_up (Z.of_nat m)) in
  (m <= 2 ^ k)%nat /\ (forall j, (m <= 2 ^ j)%nat -> (2 ^ k <= 2 ^ j)%nat).
Proof.
  intros Hm k.
  assert (H := Z.log2_up_nonneg (Z.of_nat m)).
  split.
  - apply Nat2Z.inj_le. unfold k. rewrite Nat2Z.inj_pow, Z2Nat.id by lia.
    apply Z.log2_up_le_pow2; lia.
  - intros j Hj. apply Nat.pow_le_mono_r; [lia|].
    apply Nat2Z.inj_le. unfold k. rewrite Z2Nat.id by lia.
    apply Z.log2_up_le_pow2; [lia|].
    change 2%Z with (Z.of_nat 2). rewrite <- Nat2Z.inj_pow. lia.
Qed.

Lemma fft_xcorr_eq (a b : list C) :
  (1 <= length a + length b - 1)%nat ->
  let m := (length a + length b - 1)%nat in
  let n := (2 ^ Z.to_nat (Z.log2_up (Z.of_nat m)))%nat in
  fft_xcorr a b
  = Ok (firstn m (np_ifft (map2 Cmul (np_fft b n) (map Cconj (np_fft a n))))).
Proof.
  intros Hm m n. unfold fft_xcorr.
  replace (Z.of_nat (length a) + Z.of_nat (length b) - 1)%Z
    with (Z.of_nat m) by (unfold m; lia).
  rewrite int_ceil_log2_pos by lia. cbn [bind].
  now rewrite fft_size_nat.
Qed.

(** *** [np.argmax] *)

Lemma argmax_from_spec (l : list R) :
  forall best_i best i,
    (argmax_from best_i best i l = best_i
     /\ forall q, (q < length l)%nat -> nth q l 0 <= best)
    \/ (exists p, (p < length l)%nat
          /\ argmax_from best_i best i l = (i + p)%nat
          /\ best < nth p l 0
          /\ (forall q, (q < length l)%nat -> nth q l 0 <= nth p l 0)
          /\ (forall q, (q < p)%nat -> nth q l 0 < nth p l 0)).
Proof.
  induction l as [|x t IH]; intros best_i best i.
  - left. split; [reflexivity|]. cbn. intros q Hq. lia.
  - cbn [argmax_from]. destruct (Rlt_dec best x) as [Hlt|Hge].
    + right. destruct (IH i x (S i)) as [[E H]|(p & Hp & E & Hb & H1 & H2)].
      * exists 0%nat. cbn [length nth]. repeat split; try lia.
        -- exact Hlt.
        -- intros [|q] Hq; [lra|]. apply H. lia.
      * exists (S p). cbn [length nth]. repeat split; try lia.
        -- lra.
        -- intros [|q] Hq; [lra|]. apply H1. lia.
        -- intros [|q] Hq; [lra|]. apply H2. lia.
    + destruct (IH best_i best (S i)) as [[E H]|(p & Hp & E & Hb & H1 & H2)].
      * left. split; [exact E|].
        intros [|q] Hq; cbn [nth]; [lra|]. apply H. cbn in Hq. lia.
      * right. exists (S p). cbn [length nth]. repeat split; try lia.
        -- exact Hb.
        -- intros [|q] Hq; [lra|]. apply H1. lia.
        -- intros [|q] Hq; [lra|]. apply H2. lia.
Qed.

Lemma np_argmax_spec (l : list R) :
  l <> [] ->
  exists p,
    np_argmax l = Ok p
    /\ (p < length l)%nat
    /\ (forall q, (q < length l)%nat -> nth q l 0 <= nth p l 0)
    /\ (forall q, (q < p)%nat -> nth q l 0 < nth p l 0).
Proof.
  destruct l as [|x t]; [congruence|]. intros _. cbn [np_argmax].
  destruct (argmax_from_spec t 0%nat x 1%nat)
    as [[E H]|(p & Hp & E & Hb & H1 & H2)].
  - exists 0%nat. rewrite E. cbn [length nth]. repeat split; try lia.
    intros [|q] Hq; [lra|]. apply H. lia.
  - exists (S p). rewrite E. cbn [length nth]. repeat split; try lia.
    + intros [|q] Hq; [lra|]. apply H1. lia.
    + intros [|q] Hq; [lra|]. apply H2. lia.
Qed.

End AnalyzerFacts.

Section AnalyzerStructure.
Import Py Analyzer.
Local Open Scope R_scope.

Variables TX_REF_SAMPLES CORR_SEARCH_SAMPLES : nat.

Local Abbreviation analyze :=
  (analyze_correlation TX_REF_SAMPLES CORR_SEARCH_SAMPLES).
Local Abbreviation trunc_tx := (truncate_tx TX_REF_SAMPLES).
Local Abbreviation trunc_rx := (truncate_rx CORR_SEARCH_SAMPLES).

Lemma nth_map_Cabs (l : list C) (i : nat) :
  (i < length l)%nat -> nth i (map Cabs l) 0 = Cabs (nth i l C0).
Proof.
  intros H. rewrite (nth_indep _ 0 (Cabs C0)) by (now rewrite length_map).
  apply map_nth.
Qed.

Lemma analyze_correlation_eq (tx_samples rx_samples corr : list C) (p : nat) :
  let tx := trunc_tx tx_samples in
  let rx := trunc_rx rx_samples in
  fft_xcorr tx rx = Ok corr ->
  np_argmax (map Cabs corr) = Ok p ->
  let lag := (Z.of_nat p - (Z.of_nat (length tx) - 1))%Z in
  analyze tx_samples rx_samples
  = Ok {| peak_index := Z.of_nat p;
          lag_samples := lag;
          peak_value := nth p (map Cabs corr) 0;
          norm_peak :=
            nth p (map Cabs corr) 0
            / (sqrt (energy tx * (energy (rx_window tx rx lag) + / 10 ^ 12))
               + / 10 ^ 24);
          snr_db_est :=
            snr_of (rx_window tx rx lag)
                   (slice tx 0 (length (rx_window tx rx lag)));
          E_tx := energy tx |}.
Proof.
  intros tx rx H1 H2 lag. unfold analyze_correlation.
  fold tx rx. rewrite H1. cbn [bind]. rewrite H2. reflexivity.
Qed.

(** C1. For non-empty truncated buffers the transform length is the
    smallest power of two that is at least [m = len(tx) + len(rx) - 1];
    both inputs are extended with zeros to that length; [fft_xcorr]
    returns the first [m] samples of the inverse transform of
    [fft(rx) * conj(fft(tx))]; the peak index is the first index of
    maximum magnitude among the samples [fft_xcorr] returned and the lag
    is the peak index minus [len(tx) - 1].  Nothing is said here about
    the values the transforms produce. *)
Theorem analyze_correlation_structure (tx_samples rx_samples : list C) :
  let tx := trunc_tx tx_samples in
  let rx := trunc_rx rx_samples in
  (1 <= length tx)%nat -> (1 <= length rx)%nat ->
  let m := (length tx + length rx - 1)%nat in
  exists (k : nat) (corr : list C) (res : CorrelationResult),
    let n := (2 ^ k)%nat in
    ((m <= n)%nat /\ forall j, (m <= 2 ^ j)%nat -> (n <= 2 ^ j)%nat)
    /\ resize tx n = tx ++ repeat C0 (n - length tx)
    /\ resize rx n = rx ++ repeat C0 (n - length rx)
    /\ fft_xcorr tx rx = Ok corr
    /\ corr = firstn m (np_ifft (map2 Cmul (np_fft rx n)
                                      (map Cconj (np_fft tx n))))
    /\ length corr = m
    /\ analyze tx_samples rx_samples = Ok res
    /\ exists peak,
        peak_index res = Z.of_nat peak
        /\ (peak < m)%nat
        /\ (forall i, (i < m)%nat ->
              Cabs (nth i corr C0) <= Cabs (nth peak corr C0))
        /\ (forall i, (i < peak)%nat ->
              Cabs (nth i corr C0) < Cabs (nth peak corr C0))
        /\ peak_value res = Cabs (nth peak corr C0)
        /\ lag_samples res
           = (peak_index res - (Z.of_nat (length tx) - 1))%Z.
Proof.
  intros tx rx Htx Hrx m.
  assert (Hm : (1 <= m)%nat) by (unfold m; lia).
  destruct (fft_size_spec m Hm) as [Hle Hmin].
  set (k := Z.to_nat (Z.log2_up (Z.of_nat m))) in *.
  set (n := (2 ^ k)%nat) in *.
  set (corr := firstn m (np_ifft (map2 Cmul (np_fft rx n)
                                       (map Cconj (np_fft tx n))))).
  assert (Hlen : length corr = m).
  { unfold corr.
    rewrite length_firstn, np_ifft_length, map2_length, length_map,
      !np_fft_length. lia. }
  assert (Hx : fft_xcorr tx rx = Ok corr) by (apply fft_xcorr_eq; exact Hm).
  destruct (np_argmax_spec (map Cabs corr)) as (p & Hp & Hlt & Hmax & Hfirst).
  { intros E. apply (f_equal (@length R)) in E.
    rewrite length_map, Hlen in E. cbn in E. lia. }
  rewrite length_map, Hlen in Hlt, Hmax.
  exists k, corr. eexists. cbn zeta. fold n.
  split; [split; [exact Hle|exact Hmin]|].
  split; [apply resize_pad; unfold m in Hle; lia|].
  split; [apply resize_pad; unfold m in Hle; lia|].
  split; [exact Hx|]. split; [reflexivity|]. split; [exact Hlen|].
  split; [exact (analyze_correlation_eq tx_samples rx_samples corr p Hx Hp)|].
  exists p. cbn [peak_index peak_value lag_samples].
  split; [reflexivity|]. split; [exact Hlt|].
  split.
  { intros i Hi. rewrite <- !nth_map_Cabs by lia. now apply Hmax. }
  split.
  { intros i Hi. rewrite <- !nth_map_Cabs by lia. now apply Hfirst. }
  split; [apply nth_map_Cabs; lia|reflexivity].
Qed.

End AnalyzerStructure.

(** C1, on a reference of two samples and a capture of one. *)
Lemma analyze_correlation_structure_witness :
  exists res,
    Analyzer.analyze_correlation 4 4 [(1, 0); (0, 0)]%R [(1, 0)]%R = Py.Ok res
    /\ Analyzer.lag_samples res = (Analyzer.peak_index res - (2 - 1))%Z.
Proof.
  destruct (analyze_correlation_structure 4 4 [(1, 0); (0, 0)]%R [(1, 0)]%R)
    as (k & corr & res & _ & _ & _ & _ & _ & _ & H & peak & _ & _ & _ & _ & _ & L);
    [simpl; lia|simpl; lia|].
  exists res. split; [exact H|exact L].
Defined.

(* ------------------------------------------------------------------ *)
(** ** The window of the signal-to-noise estimate *)

Section SnrWindow.
Import Py Analyzer.
Local Open Scope R_scope.

Lemma rx_window_firstn (tx rx : list C) (lag : Z) :
  rx_window tx rx lag
  = firstn (length tx) (skipn (Z.to_nat (Z.max 0 lag)) rx).
Proof.
  unfold rx_window, slice.
  set (start := Z.to_nat (Z.max 0 lag)).
  destruct (Nat.leb_spec (start + length tx) (length rx)) as [H|H].
  - f_equal. lia.
  - rewrite !firstn_all2 by (rewrite length_skipn; lia). reflexivity.
Qed.

Lemma flat_map_below {A : Type} (h : nat -> A) (c n : nat) :
  forall a,
    flat_map (fun j => if (j <? c)%nat then [h j] else []) (seq a n)
    = map h (seq a (Nat.min n (c - a))).
Proof.
  induction n as [|n IH]; intros a; [reflexivity|].
  cbn [seq flat_map]. rewrite IH.
  destruct (Nat.ltb_spec a c) as [H|H].
  - replace (Nat.min (S n) (c - a)) with (S (Nat.min n (c - S a))) by lia.
    reflexivity.
  - replace (Nat.min n (c - S a)) with 0%nat by lia.
    replace (Nat.min (S n) (c - a)) with 0%nat by lia.
    reflexivity.
Qed.

Lemma aligned_pairs_nonneg (tx rx : list C) (s : nat) :
  aligned_pairs tx rx (Z.of_nat s)
  = map (fun j => (nth (s + j) rx C0, nth j tx C0))
        (seq 0 (Nat.min (length tx) (length rx - s))).
Proof.
  unfold aligned_pairs.
  rewrite <- (Nat.sub_0_r (length rx - s)), <- flat_map_below.
  apply flat_map_ext. intros j.
  replace ((0 <=? Z.of_nat s + Z.of_nat j)%Z
           && (Z.of_nat s + Z.of_nat j <? Z.of_nat (length rx))%Z)
    with (j <? length rx - s)%nat.
  2:{ destruct (Nat.ltb_spec j (length rx - s));
      destruct (Z.leb_spec 0 (Z.of_nat s + Z.of_nat j));
      destruct (Z.ltb_spec (Z.of_nat s + Z.of_nat j) (Z.of_nat (length rx)));
      cbn; try reflexivity; lia. }
  destruct (j <? length rx - s)%nat; [|reflexivity].
  now rewrite <- Nat2Z.inj_add, Nat2Z.id.
Qed.

Lemma aligned_window (tx rx : list C) (s : nat) :
  map fst (aligned_pairs tx rx (Z.of_nat s))
  = firstn (length tx) (skipn s rx)
  /\ map snd (aligned_pairs tx rx (Z.of_nat s))
     = firstn (length (firstn (length tx) (skipn s rx))) tx.
Proof.
  rewrite aligned_pairs_nonneg, !map_map. cbn [fst snd].
  rewrite length_firstn, length_skipn.
  set (k := Nat.min (length tx) (length rx - s)).
  split.
  - apply (nth_ext _ _ C0 C0).
    + rewrite length_map, length_seq, length_firstn, length_skipn. reflexivity.
    + intros i Hi. rewrite length_map, length_seq in Hi.
      rewrite nth_map_seq by exact Hi.
      rewrite nth_firstn, nth_skipn.
      destruct (Nat.ltb_spec i (length tx)); [reflexivity|lia].
  - apply (nth_ext _ _ C0 C0).
    + rewrite length_map, length_seq, length_firstn. lia.
    + intros i Hi. rewrite length_map, length_seq in Hi.
      rewrite nth_map_seq by exact Hi.
      rewrite nth_firstn.
      destruct (Nat.ltb_spec i k); [reflexivity|lia].
Qed.

(** What the script computes is the lag-aligned estimate at the lag
    clamped below at zero. *)
Lemma snr_clamped (tx rx : list C) (lag : Z) :
  snr_of (rx_window tx rx lag) (slice tx 0 (length (rx_window tx rx lag)))
  = snr_lag_aligned tx rx (Z.max 0 lag).
Proof.
  unfold snr_lag_aligned.
  rewrite <- (Z2Nat.id (Z.max 0 lag)) by lia.
  destruct (aligned_window tx rx (Z.to_nat (Z.max 0 lag))) as [-> ->].
  rewrite rx_window_firstn. unfold slice.
  now rewrite Nat.sub_0_r.
Qed.

(** The captured segment and the reference subtracted from it have the
    same length, so the subtraction is element by element. *)
Lemma residual_lengths (tx rx : list C) (lag : Z) :
  length (slice tx 0 (length (rx_window tx rx lag)))
  = length (rx_window tx rx lag).
Proof.
  rewrite rx_window_firstn. unfold slice.
  rewrite Nat.sub_0_r. cbn [skipn].
  rewrite !length_firstn, length_skipn. lia.
Qed.

(** For non-empty buffers and a lag the peak search can produce, the
    captured segment is not empty: the [max(1, size)] guards of the
    script only matter when a buffer is empty. *)
Lemma rx_window_nonempty (tx rx : list C) (lag : Z) :
  (1 <= length tx)%nat -> (1 <= length rx)%nat ->
  (lag <= Z.of_nat (length rx) - 1)%Z ->
  (1 <= length (rx_window tx rx lag))%nat.
Proof.
  intros Htx Hrx Hlag. rewrite rx_window_firstn.
  rewrite length_firstn, length_skipn. lia.
Qed.

Lemma analyze_correlation_inv TXcap RXcap tx_samples rx_samples res :
  analyze_correlation TXcap RXcap tx_samples rx_samples = Ok res ->
  let tx := truncate_tx TXcap tx_samples in
  let rx := truncate_rx RXcap rx_samples in
  snr_db_est res
  = snr_of (rx_window tx rx (lag_samples res))
           (slice tx 0 (length (rx_window tx rx (lag_samples res)))).
Proof.
  unfold analyze_correlation.
  destruct (fft_xcorr _ _) as [corr|e]; cbn [bind]; [|discriminate].
  destruct (np_argmax _) as [p|e]; cbn [bind]; [|discriminate].
  intros E. injection E as <-. reflexivity.
Qed.

(** C6 (amended). Whenever the analysis returns, its estimate is the
    lag-aligned estimate taken at [max(0, lag)]: the captured window
    starts at the lag when the lag is non-negative and at the start of the
    capture when it is negative, the reference subtracted from it is the
    start of the reference cut to the length of the window, and the value
    is [10 * log10(max(1e-12, signal / (noise + 1e-12)))]. *)
Theorem snr_window_clamped TXcap RXcap (tx_samples rx_samples : list C)
        (res : CorrelationResult) :
  analyze_correlation TXcap RXcap tx_samples rx_samples = Ok res ->
  let tx := truncate_tx TXcap tx_samples in
  let rx := truncate_rx RXcap rx_samples in
  snr_db_est res = snr_lag_aligned tx rx (Z.max 0 (lag_samples res))
  /\ ((0 <= lag_samples res)%Z ->
      snr_db_est res = snr_lag_aligned tx rx (lag_samples res)).
Proof.
  intros H tx rx.
  rewrite (analyze_correlation_inv _ _ _ _ _ H). fold tx rx.
  rewrite snr_clamped. split; [reflexivity|].
  intros Hlag. now rewrite Z.max_r by exact Hlag.
Qed.

End SnrWindow.

(* ------------------------------------------------------------------ *)
(** ** Evaluating the analyzer *)

Ltac xcorr_eval :=
  cbv [Analyzer.circular_xcorr Analyzer.resize Analyzer.Csum nth firstn
       repeat app length Nat.sub Nat.add Nat.modulo Nat.divmod Nat.min
       fst snd Analyzer.Cmul Analyzer.Cadd Analyzer.Cconj Analyzer.C0];
  apply injective_projections; cbn [fst snd]; ring.

Section Evaluation.
Import Py Analyzer.
Local Open Scope R_scope.

Lemma truncate_within {A : Type} (l : list A) (cap : nat) :
  (length l <= cap)%nat -> slice l 0 (Nat.min (length l) cap) = l.
Proof.
  intros H. unfold slice. cbn [skipn]. apply firstn_all2. lia.
Qed.

Lemma Cabs_real (x : R) : 0 <= x -> Cabs (x, 0) = x.
Proof.
  intros H. unfold Cabs. cbn [fst snd].
  replace (x * x + 0 * 0) with (x * x) by ring. now apply sqrt_square.
Qed.

Lemma Cabs_sq (z : C) : Cabs z ^ 2 = fst z * fst z + snd z * snd z.
Proof.
  unfold Cabs. rewrite <- Rsqr_pow2. apply Rsqr_sqrt. nra.
Qed.

(** The correlation sequence from its values. *)
Lemma fft_xcorr_values (a b vals : list C) (n : nat) :
  (1 <= length a + length b - 1)%nat ->
  n = (2 ^ Z.to_nat (Z.log2_up (Z.of_nat (length a + length b - 1))))%nat ->
  length vals = (length a + length b - 1)%nat ->
  (forall i, (i < length vals)%nat ->
     circular_xcorr (resize a n) (resize b n) n i = nth i vals C0) ->
  fft_xcorr a b = Ok vals.
Proof.
  intros Hm Hn Hlen Hv. rewrite fft_xcorr_eq by exact Hm. rewrite <- Hn.
  destruct (fft_size_spec _ Hm) as [Hle _]. rewrite <- Hn in Hle.
  f_equal. apply (nth_ext _ _ C0 C0).
  - rewrite length_firstn, np_ifft_length, map2_length, length_map,
      !np_fft_length. lia.
  - intros i Hi.
    rewrite length_firstn, np_ifft_length, map2_length, length_map,
      !np_fft_length in Hi.
    rewrite nth_firstn. destruct (Nat.ltb_spec i (length a + length b - 1));
      [|lia].
    rewrite xcorr_via_fft by lia. apply Hv. lia.
Qed.

Lemma tiny_bounds : 0 < / 10 ^ 12 < 1.
Proof.
  assert (H : 1 < 10 ^ 12) by (simpl; lra).
  split.
  - apply Rinv_0_lt_compat. lra.
  - rewrite <- Rinv_1. apply Rinv_lt_contravar; lra.
Qed.

Lemma snr_of_single (z w : C) :
  snr_of [z] [w]
  = 10 * log10 (Rmax (/ 10 ^ 12)
                     ((fst z * fst z + snd z * snd z)
                      / ((fst z - fst w) * (fst z - fst w)
                         + (snd z - snd w) * (snd z - snd w) + / 10 ^ 12))).
Proof.
  unfold snr_of, energy, np_sum. cbn [map2 map length fold_right INR].
  rewrite !Cabs_sq. unfold Csub. cbn [fst snd].
  replace (Rmax 1 1) with 1 by (symmetry; apply Rmax_left; lra).
  do 3 f_equal. field.
  assert (H1 := Rle_0_sqr (fst z - fst w)).
  assert (H2 := Rle_0_sqr (snd z - snd w)).
  unfold Rsqr in H1, H2. lra.
Qed.

Lemma log10_pos (x : R) : 1 < x -> 0 < log10 x.
Proof.
  intros H. unfold log10.
  assert (H1 : 0 < ln x) by (rewrite <- ln_1; apply ln_increasing; lra).
  assert (H2 : 0 < ln 10) by (rewrite <- ln_1; apply ln_increasing; lra).
  now apply Rdiv_lt_0_compat.
Qed.

Lemma log10_neg (x : R) : 0 < x < 1 -> log10 x < 0.
Proof.
  intros H. unfold log10.
  assert (H1 : ln x < 0) by (rewrite <- ln_1; apply ln_increasing; lra).
  assert (H2 : 0 < ln 10) by (rewrite <- ln_1; apply ln_increasing; lra).
  assert (H3 : 0 < / ln 10) by (now apply Rinv_0_lt_compat).
  unfold Rdiv. nra.
Qed.

End Evaluation.

Section Cases.
Import Py Analyzer.
Local Open Scope R_scope.

(** *** Degenerate lengths *)

(** C4. The analysis raises when the truncated lengths sum to at most
    one: [np.log2] of [len(tx) + len(rx) - 1] is then nan or -inf and
    [int] rejects it. *)
Theorem analyze_correlation_degenerate_raises TXcap RXcap
        (tx_samples rx_samples : list C) :
  let tx := truncate_tx TXcap tx_samples in
  let rx := truncate_rx RXcap rx_samples in
  (length tx + length rx <= 1)%nat ->
  analyze_correlation TXcap RXcap tx_samples rx_samples
  = Raise (if (length tx + length rx =? 0)%nat
           then ValueError "cannot convert float NaN to integer"
           else OverflowError "cannot convert float infinity to integer").
Proof.
  intros tx rx H. unfold analyze_correlation, fft_xcorr, int_ceil_log2.
  fold tx rx.
  destruct (Nat.eqb_spec (length tx + length rx) 0) as [E|E].
  - destruct (Z.ltb_spec (Z.of_nat (length tx) + Z.of_nat (length rx) - 1) 0);
      [reflexivity|lia].
  - destruct (Z.ltb_spec (Z.of_nat (length tx) + Z.of_nat (length rx) - 1) 0);
      [lia|].
    destruct (Z.eqb_spec (Z.of_nat (length tx) + Z.of_nat (length rx) - 1) 0);
      [reflexivity|lia].
Qed.

(** The caller skips the analysis of an empty capture, but runs it on an
    empty reference: with a capture of one sample the exception reaches
    the top of [main]. *)
Lemma main_report_degenerate TXcap RXcap (iq_data : list C) (x : C) :
  (1 <= RXcap)%nat ->
  main_report TXcap RXcap (Some []) iq_data = NoSignalCaptured
  /\ main_report TXcap RXcap (Some [x]) []
     = Uncaught (OverflowError "cannot convert float infinity to integer").
Proof.
  intros H. split; [reflexivity|].
  unfold main_report, analyze_correlation, truncate_tx, truncate_rx.
  cbn [length Nat.eqb].
  rewrite (truncate_within [x]) by (cbn [length]; lia).
  reflexivity.
Qed.

(** *** A negative lag *)

Lemma xcorr_two_one :
  fft_xcorr [(1, 0); (0, 0)] [(1, 0)] = Ok [(1, 0); (0, 0)].
Proof.
  apply (fft_xcorr_values _ _ _ 2%nat);
    [cbn; lia|reflexivity|reflexivity|].
  intros i Hi. cbn [length] in Hi.
  destruct i as [|[|i]]; [xcorr_eval|xcorr_eval|lia].
Qed.

Lemma analyze_two_one :
  exists res,
    analyze_correlation 4 4 [(1, 0); (0, 0)] [(1, 0)] = Ok res
    /\ lag_samples res = (-1)%Z
    /\ snr_db_est res = snr_of [(1, 0)] [(1, 0)].
Proof.
  assert (Hp : np_argmax (map Cabs [(1, 0); (0, 0)]) = Ok 0%nat).
  { cbn [map np_argmax argmax_from]. rewrite !Cabs_real by lra.
    destruct (Rlt_dec 1 0); [lra|reflexivity]. }
  eexists. split;
    [exact (analyze_correlation_eq 4 4 [(1, 0); (0, 0)] [(1, 0)] _ _
              xcorr_two_one Hp)|].
  cbn [lag_samples snr_db_est]. split; reflexivity.
Qed.

(** C6 as stated fails at a negative lag: for the reference [1, 0] and
    the capture [1] the lag is -1; the script subtracts [tx[0]] from
    [rx[0]], while the pair aligned at lag -1 is [rx[0]] and [tx[1]]. *)
Lemma snr_negative_lag_counterexample :
  let tx_samples := [(1, 0); (0, 0)] in
  let rx_samples := [(1, 0)] in
  exists res,
    analyze_correlation 4 4 tx_samples rx_samples = Ok res
    /\ lag_samples res = (-1)%Z
    /\ snr_db_est res
       <> snr_lag_aligned (truncate_tx 4 tx_samples) (truncate_rx 4 rx_samples)
                          (lag_samples res).
Proof.
  intros tx_samples rx_samples.
  destruct analyze_two_one as (res & H & Hlag & Hsnr).
  exists res. split; [exact H|]. split; [exact Hlag|].
  rewrite Hsnr, Hlag.
  change (snr_of [(1, 0)] [(1, 0)] <> snr_of [(1, 0)] [(0, 0)]).
  rewrite !snr_of_single. cbn [fst snd].
  assert (He := tiny_bounds). set (e := / 10 ^ 12) in *.
  assert (H1 : 0 < log10 (Rmax e ((1 * 1 + 0 * 0)
                 / ((1 - 1) * (1 - 1) + (0 - 0) * (0 - 0) + e)))).
  { apply log10_pos. eapply Rlt_le_trans; [|apply Rmax_r].
    replace ((1 * 1 + 0 * 0) / ((1 - 1) * (1 - 1) + (0 - 0) * (0 - 0) + e))
      with (/ e) by (field; lra).
    rewrite <- Rinv_1. apply Rinv_lt_contravar; lra. }
  assert (H2 : log10 (Rmax e ((1 * 1 + 0 * 0)
                 / ((1 - 0) * (1 - 0) + (0 - 0) * (0 - 0) + e))) < 0).
  { apply log10_neg.
    replace ((1 * 1 + 0 * 0) / ((1 - 0) * (1 - 0) + (0 - 0) * (0 - 0) + e))
      with (/ (1 + e)) by (field; lra).
    assert (H3 : 0 < / (1 + e)) by (apply Rinv_0_lt_compat; lra).
    assert (H4 : (1 + e) * / (1 + e) = 1) by (apply Rinv_r; lra).
    split.
    - eapply Rlt_le_trans; [|apply Rmax_l]. lra.
    - apply Rmax_lub_lt; nra. }
  lra.
Qed.

(** *** The identity case *)

Lemma xcorr_delayed_copy :
  fft_xcorr [(1, 0); (2, 0); (3, 0)] [(0, 0); (1, 0); (2, 0); (3, 0)]
  = Ok [(8, 0); (14, 0); (8, 0); (3, 0); (0, 0); (0, 0)].
Proof.
  apply (fft_xcorr_values _ _ _ 8%nat);
    [cbn; lia|reflexivity|reflexivity|].
  intros i Hi. cbn [length] in Hi.
  do 6 (destruct i as [|i]; [xcorr_eval|]). lia.
Qed.

(** C8, evaluated: for the reference [1, 2, 3] and the capture equal to
    the reference preceded by one zero sample, both within the caps, the
    correlation peaks at index 1 and the reported lag is
    [1 - (3 - 1) = -1], two samples away from the delay of one. *)
Theorem analyze_delayed_copy_lag TXcap RXcap :
  (3 <= TXcap)%nat -> (4 <= RXcap)%nat ->
  exists res,
    analyze_correlation TXcap RXcap [(1, 0); (2, 0); (3, 0)]
                        ((0, 0) :: [(1, 0); (2, 0); (3, 0)]) = Ok res
    /\ peak_index res = 1%Z
    /\ lag_samples res = (-1)%Z.
Proof.
  intros Htx Hrx.
  assert (Hx : fft_xcorr (truncate_tx TXcap [(1, 0); (2, 0); (3, 0)])
                 (truncate_rx RXcap [(0, 0); (1, 0); (2, 0); (3, 0)])
               = Ok [(8, 0); (14, 0); (8, 0); (3, 0); (0, 0); (0, 0)]).
  { unfold truncate_tx, truncate_rx.
    rewrite !truncate_within by (cbn [length]; lia).
    exact xcorr_delayed_copy. }
  assert (Hp : np_argmax (map Cabs [(8, 0); (14, 0); (8, 0); (3, 0);
                                    (0, 0); (0, 0)]) = Ok 1%nat).
  { cbn [map np_argmax argmax_from]. rewrite !Cabs_real by lra.
    repeat (destruct (Rlt_dec _ _); try lra). reflexivity. }
  eexists. split; [exact (analyze_correlation_eq _ _ _ _ _ _ Hx Hp)|].
  cbn [peak_index lag_samples]. split; [reflexivity|].
  unfold truncate_tx. rewrite truncate_within by (cbn [length]; lia).
  reflexivity.
Qed.

End Cases.

(** C4, on an empty reference and a capture of one sample. *)
Lemma analyze_correlation_degenerate_raises_witness :
  Analyzer.analyze_correlation 8 8 [] [(1, 0)%R]
  = Py.Raise (Py.OverflowError "cannot convert float infinity to integer").
Proof.
  apply (analyze_correlation_degenerate_raises 8 8 [] [(1, 0)%R]).
  simpl. lia.
Defined.

(** C6 (amended), on the same reference and capture. *)
Lemma snr_window_clamped_witness :
  exists res,
    Analyzer.analyze_correlation 4 4 [(1, 0); (0, 0)]%R [(1, 0)%R] = Py.Ok res
    /\ Analyzer.snr_db_est res
       = Analyzer.snr_lag_aligned (Analyzer.truncate_tx 4 [(1, 0); (0, 0)]%R)
                                  (Analyzer.truncate_rx 4 [(1, 0)%R])
                                  (Z.max 0 (Analyzer.lag_samples res)).
Proof.
  destruct analyze_two_one as (res & H & _).
  exists res. split; [exact H|].
  exact (proj1 (snr_window_clamped 4 4 [(1, 0); (0, 0)]%R [(1, 0)%R] res H)).
Defined.

(** C8, with caps of eight samples. *)
Lemma analyze_delayed_copy_lag_witness :
  exists res,
    Analyzer.analyze_correlation 8 8 [(1, 0); (2, 0); (3, 0)]%R
                                 ((0, 0) :: [(1, 0); (2, 0); (3, 0)])%R
    = Py.Ok res
    /\ Analyzer.peak_index res = 1%Z
    /\ Analyzer.lag_samples res = (-1)%Z.
Proof.
  apply (analyze_delayed_copy_lag 8 8); lia.
Defined.

(* ================================================================== *)
(** * Further properties of the analyzer *)

Section AnalyzerRuns.
Import Py Analyzer.
Local Open Scope R_scope.

Variables TX_REF_SAMPLES CORR_SEARCH_SAMPLES : nat.

Local Abbreviation analyze :=
  (analyze_correlation TX_REF_SAMPLES CORR_SEARCH_SAMPLES).
Local Abbreviation trunc_tx := (truncate_tx TX_REF_SAMPLES).
Local Abbreviation trunc_rx := (truncate_rx CORR_SEARCH_SAMPLES).

Lemma analyze_raises_short (tx_samples rx_samples : list C) :
  (length (trunc_tx tx_samples) + length (trunc_rx rx_samples) <= 1)%nat ->
  exists e, analyze tx_samples rx_samples = Raise e.
Proof.
  intros H. unfold analyze_correlation, fft_xcorr, int_ceil_log2.
  set (m := (Z.of_nat (length (trunc_tx tx_samples))
             + Z.of_nat (length (trunc_rx rx_samples)) - 1)%Z).
  destruct (Z.ltb_spec m 0); [cbn; eauto|].
  destruct (Z.eqb_spec m 0); [cbn; eauto|]. unfold m in *. lia.
Qed.

(** Everything a run of the analysis computes, when the truncated
    lengths sum to at least two. *)
Lemma analyze_run (tx_samples rx_samples : list C) :
  let tx := trunc_tx tx_samples in
  let rx := trunc_rx rx_samples in
  let m := (length tx + length rx - 1)%nat in
  let n := (2 ^ Z.to_nat (Z.log2_up (Z.of_nat m)))%nat in
  (2 <= length tx + length rx)%nat ->
  exists (corr : list C) (p : nat) (res : CorrelationResult),
    fft_xcorr tx rx = Ok corr
    /\ length corr = m
    /\ (m <= n)%nat
    /\ (forall i, (i < m)%nat ->
          nth i corr C0 = circular_xcorr (resize tx n) (resize rx n) n i)
    /\ (p < m)%nat
    /\ (forall q, (q < m)%nat -> Cabs (nth q corr C0) <= Cabs (nth p corr C0))
    /\ (forall q, (q < p)%nat -> Cabs (nth q corr C0) < Cabs (nth p corr C0))
    /\ analyze tx_samples rx_samples = Ok res
    /\ peak_index res = Z.of_nat p
    /\ lag_samples res = (Z.of_nat p - (Z.of_nat (length tx) - 1))%Z
    /\ peak_value res = Cabs (nth p corr C0)
    /\ norm_peak res
       = peak_value res
         / (sqrt (energy tx
                  * (energy (rx_window tx rx (lag_samples res)) + / 10 ^ 12))
            + / 10 ^ 24)
    /\ snr_db_est res
       = snr_of (rx_window tx rx (lag_samples res))
                (slice tx 0 (length (rx_window tx rx (lag_samples res))))
    /\ E_tx res = energy tx.
Proof.
  intros tx rx m n H.
  assert (Hm : (1 <= m)%nat) by (unfold m; lia).
  destruct (fft_size_spec m Hm) as [Hle _]. fold n in Hle.
  set (corr := firstn m (np_ifft (map2 Cmul (np_fft rx n)
                                       (map Cconj (np_fft tx n))))).
  assert (Hlen : length corr = m).
  { unfold corr.
    rewrite length_firstn, np_ifft_length, map2_length, length_map,
      !np_fft_length. lia. }
  assert (Hx : fft_xcorr tx rx = Ok corr) by (apply fft_xcorr_eq; exact Hm).
  destruct (np_argmax_spec (map Cabs corr)) as (p & Hp & Hlt & Hmax & Hfirst).
  { intros E. apply (f_equal (@length R)) in E.
    rewrite length_map, Hlen in E. cbn in E. lia. }
  rewrite length_map, Hlen in Hlt, Hmax.
  exists corr, p. eexists.
  split; [exact Hx|]. split; [exact Hlen|]. split; [exact Hle|].
  split.
  { intros i Hi. unfold corr. rewrite nth_firstn.
    destruct (Nat.ltb_spec i m); [|lia]. apply xcorr_via_fft; lia. }
  split; [exact Hlt|].
  split.
  { intros q Hq. rewrite <- !nth_map_Cabs by lia. now apply Hmax. }
  split.
  { intros q Hq. rewrite <- !nth_map_Cabs by lia. now apply Hfirst. }
  split;
    [exact (analyze_correlation_eq TX_REF_SAMPLES CORR_SEARCH_SAMPLES
              tx_samples rx_samples corr p Hx Hp)|].
  cbn [peak_index lag_samples peak_value norm_peak snr_db_est E_tx].
  repeat split. apply nth_map_Cabs. lia.
Qed.

(** X1. The analysis returns a result exactly when the two truncated
    buffers hold at least two samples together; otherwise it raises. *)
Theorem analyze_returns_iff (tx_samples rx_samples : list C) :
  (exists res, analyze tx_samples rx_samples = Ok res)
  <-> (2 <= length (trunc_tx tx_samples) + length (trunc_rx rx_samples))%nat.
Proof.
  split.
  - intros [res H].
    destruct (Nat.le_gt_cases 2 (length (trunc_tx tx_samples)
                                 + length (trunc_rx rx_samples)))
      as [Hle|Hgt]; [exact Hle|].
    destruct (analyze_raises_short tx_samples rx_samples) as [e He]; [lia|].
    rewrite He in H. discriminate.
  - intros H.
    destruct (analyze_run tx_samples rx_samples H)
      as (corr & p & res & _ & _ & _ & _ & _ & _ & _ & Hres & _).
    eauto.
Qed.

(** X2. Whenever the analysis returns, the peak index lies inside the
    correlation sequence and the lag between [-(len(tx) - 1)] and
    [len(rx) - 1]. *)
Theorem analyze_lag_bounds (tx_samples rx_samples : list C)
        (res : CorrelationResult) :
  analyze tx_samples rx_samples = Ok res ->
  let na := Z.of_nat (length (trunc_tx tx_samples)) in
  let nb := Z.of_nat (length (trunc_rx rx_samples)) in
  (0 <= peak_index res < na + nb - 1)%Z
  /\ lag_samples res = (peak_index res - (na - 1))%Z
  /\ (- (na - 1) <= lag_samples res <= nb - 1)%Z.
Proof.
  intros H na nb.
  destruct (Nat.le_gt_cases 2 (length (trunc_tx tx_samples)
                               + length (trunc_rx rx_samples)))
    as [Hle|Hgt].
  - destruct (analyze_run tx_samples rx_samples Hle)
      as (corr & p & res' & _ & _ & _ & _ & Hp & _ & _ & Hres & Hpk & Hlag & _).
    rewrite Hres in H. injection H as <-.
    rewrite Hpk, Hlag. unfold na, nb. lia.
  - destruct (analyze_raises_short tx_samples rx_samples) as [e He]; [lia|].
    rewrite He in H. discriminate.
Qed.

End AnalyzerRuns.

(** X1, on a reference of two samples and no capture. *)
Lemma analyze_returns_iff_witness :
  exists res,
    Analyzer.analyze_correlation 4 4 [(1, 0); (0, 0)]%R [] = Py.Ok res.
Proof.
  apply (analyze_returns_iff 4 4 [(1, 0); (0, 0)]%R []). simpl. lia.
Defined.

(** X2, on the reference [1, 0] and the capture [1]. *)
Lemma analyze_lag_bounds_witness :
  exists res,
    Analyzer.analyze_correlation 4 4 [(1, 0); (0, 0)]%R [(1, 0)%R] = Py.Ok res
    /\ (0 <= Analyzer.peak_index res < 2 + 1 - 1)%Z
    /\ (- (2 - 1) <= Analyzer.lag_samples res <= 1 - 1)%Z.
Proof.
  destruct analyze_two_one as (res & H & _).
  exists res. split; [exact H|].
  destruct (analyze_lag_bounds 4 4 [(1, 0); (0, 0)]%R [(1, 0)%R] res H)
    as (Hp & _ & Hl).
  split; [exact Hp|exact Hl].
Defined.

Section CapsFacts.
Import Py Analyzer.
Local Open Scope R_scope.

Variables TX_REF_SAMPLES CORR_SEARCH_SAMPLES : nat.

Lemma truncate_idem (cap : nat) (l : list C) :
  slice (slice l 0 (Nat.min (length l) cap)) 0
        (Nat.min (length (slice l 0 (Nat.min (length l) cap))) cap)
  = slice l 0 (Nat.min (length l) cap).
Proof.
  unfold slice. cbn [skipn]. rewrite !Nat.sub_0_r.
  apply firstn_all2. rewrite length_firstn. lia.
Qed.

(** X7. Samples beyond the caps do not influence the analysis, and
    truncating the reference before the call, as [main] does, changes
    nothing. *)
Theorem analyze_ignores_beyond_caps (tx rx tx' rx' : list C) :
  (TX_REF_SAMPLES <= length tx)%nat ->
  (CORR_SEARCH_SAMPLES <= length rx)%nat ->
  analyze_correlation TX_REF_SAMPLES CORR_SEARCH_SAMPLES (tx ++ tx') (rx ++ rx')
  = analyze_correlation TX_REF_SAMPLES CORR_SEARCH_SAMPLES tx rx
  /\ analyze_correlation TX_REF_SAMPLES CORR_SEARCH_SAMPLES
       (truncate_tx TX_REF_SAMPLES tx) rx
     = analyze_correlation TX_REF_SAMPLES CORR_SEARCH_SAMPLES tx rx.
Proof.
  intros Htx Hrx.
  assert (Hcut : forall (cap : nat) (l l' : list C),
             (cap <= length l)%nat ->
             slice (l ++ l') 0 (Nat.min (length (l ++ l')) cap)
             = slice l 0 (Nat.min (length l) cap)).
  { intros cap l l' Hc. unfold slice. cbn [skipn].
    rewrite !Nat.sub_0_r, length_app, firstn_app.
    replace (Nat.min (length l + length l') cap) with cap by lia.
    replace (Nat.min (length l) cap) with cap by lia.
    replace (cap - length l)%nat with 0%nat by lia.
    cbn [firstn]. apply app_nil_r. }
  split.
  - unfold analyze_correlation, truncate_tx, truncate_rx.
    now rewrite !Hcut by assumption.
  - unfold analyze_correlation, truncate_tx. now rewrite truncate_idem.
Qed.

(** X8. With positive caps, a non-empty loaded buffer and a non-empty
    capture, the end of [main] prints a summary: the analysis does not
    raise, and the summary is the analysis of the whole loaded buffer. *)
Theorem main_report_summary (iq_data rx_data : list C) :
  (1 <= TX_REF_SAMPLES)%nat -> (1 <= CORR_SEARCH_SAMPLES)%nat ->
  (1 <= length iq_data)%nat -> (1 <= length rx_data)%nat ->
  exists res,
    main_report TX_REF_SAMPLES CORR_SEARCH_SAMPLES (Some rx_data) iq_data
    = Summary res
    /\ analyze_correlation TX_REF_SAMPLES CORR_SEARCH_SAMPLES iq_data rx_data
       = Ok res.
Proof.
  intros Hc1 Hc2 Hiq Hrx.
  assert (Hidem : analyze_correlation TX_REF_SAMPLES CORR_SEARCH_SAMPLES
                    (slice iq_data 0 (Nat.min (length iq_data) TX_REF_SAMPLES))
                    rx_data
                  = analyze_correlation TX_REF_SAMPLES CORR_SEARCH_SAMPLES
                      iq_data rx_data).
  { unfold analyze_correlation, truncate_tx. now rewrite truncate_idem. }
  destruct (analyze_run TX_REF_SAMPLES CORR_SEARCH_SAMPLES iq_data rx_data)
    as (corr & p & res & _ & _ & _ & _ & _ & _ & _ & Hres & _).
  { unfold truncate_tx, truncate_rx, slice. cbn [skipn].
    rewrite !length_firstn. lia. }
  exists res. split; [|exact Hres].
  unfold main_report.
  destruct (Nat.eqb_spec (length rx_data) 0); [lia|].
  cbv zeta. now rewrite Hidem, Hres.
Qed.

End CapsFacts.

(** X7, with caps of one sample. *)
Lemma analyze_ignores_beyond_caps_witness :
  Analyzer.analyze_correlation 1 1 ([(1, 0)%R] ++ [(3, 0)%R])
                               ([(2, 0)%R] ++ [(5, 0)%R])
  = Analyzer.analyze_correlation 1 1 [(1, 0)%R] [(2, 0)%R].
Proof.
  apply (analyze_ignores_beyond_caps 1 1 [(1, 0)%R] [(2, 0)%R]
           [(3, 0)%R] [(5, 0)%R]); simpl; lia.
Defined.

(** X8, on a loaded buffer and a capture of one sample each. *)
Lemma main_report_summary_witness :
  exists res,
    Analyzer.main_report 4 4 (Some [(1, 0)%R]) [(1, 0)%R]
    = Analyzer.Summary res
    /\ Analyzer.analyze_correlation 4 4 [(1, 0)%R] [(1, 0)%R] = Py.Ok res.
Proof.
  apply (main_report_summary 4 4 [(1, 0)%R] [(1, 0)%R]); simpl; lia.
Defined.

(* ================================================================== *)
(** * Further properties of the loader *)

Section LoaderLayout.
Import Py Loader.

Variable complex64 : Type.
Variable view_complex64 : list byte -> complex64.
Variable scale_sc16 : Z -> Z -> complex64.

Local Abbreviation load := (load_iq_file complex64 view_complex64 scale_sc16).

Lemma items_nth (sz : nat) :
  (0 < sz)%nat ->
  forall fuel bs k,
    (length bs <= fuel)%nat -> (k < length bs / sz)%nat ->
    nth k (items sz fuel bs) [] = firstn sz (skipn (sz * k) bs).
Proof.
  intros Hsz. induction fuel as [|fuel IH]; intros bs k Hf Hk.
  - rewrite Nat.div_small in Hk by lia. lia.
  - cbn [items]. destruct (Nat.leb_spec sz (length bs)) as [Hle|Hlt].
    + destruct k as [|k]; cbn [nth].
      * now rewrite Nat.mul_0_r.
      * rewrite IH.
        -- rewrite skipn_skipn. do 2 f_equal. lia.
        -- rewrite length_skipn. lia.
        -- rewrite length_skipn.
           replace (length bs) with ((length bs - sz) + 1 * sz)%nat in Hk
             by lia.
           rewrite Nat.div_add in Hk by lia. lia.
    + rewrite Nat.div_small in Hk by lia. lia.
Qed.

Lemma reshape2_nth (raw : list Z) (k : nat) :
  (k < length raw / 2)%nat ->
  nth k (reshape2 raw) (0, 0)%Z
  = (nth (2 * k) raw 0%Z, nth (2 * k + 1) raw 0%Z).
Proof.
  revert k.
  assert (H : forall n raw k, (length raw <= n)%nat ->
                (k < length raw / 2)%nat ->
                nth k (reshape2 raw) (0, 0)%Z
                = (nth (2 * k) raw 0%Z, nth (2 * k + 1) raw 0%Z)).
  { clear raw. induction n as [|n IH]; intros raw k Hn Hk.
    - destruct raw; cbn in *; lia.
    - destruct raw as [|i [|q rest]]; try (cbn in Hk; lia).
      cbn [length] in Hk.
      replace (S (S (length rest))) with (length rest + 1 * 2)%nat in Hk
        by lia.
      rewrite Nat.div_add in Hk by lia.
      destruct k as [|k]; [reflexivity|].
      cbn [reshape2 nth]. rewrite IH by (cbn in Hn; lia).
      replace (2 * S k)%nat with (S (S (2 * k))) by lia.
      replace (S (S (2 * k)) + 1)%nat with (S (S (2 * k + 1))) by lia.
      reflexivity. }
  intros k. apply (H (length raw)). lia.
Qed.

Lemma nth_map_lt {A B : Type} (f : A -> B) (l : list A) (k : nat) (d : B)
      (d' : A) :
  (k < length l)%nat -> nth k (map f l) d = f (nth k l d').
Proof.
  intros H. rewrite (nth_indep _ d (f d')) by (now rewrite length_map).
  apply map_nth.
Qed.

Lemma int16_of_item (bs : list byte) (j : nat) :
  int16_of_bytes (firstn 2 (skipn (2 * j) bs))
  = int16_of_bytes [nth (2 * j) bs x00; nth (2 * j + 1) bs x00].
Proof.
  unfold int16_of_bytes. rewrite !nth_firstn, !nth_skipn.
  cbn [Nat.ltb Nat.leb nth]. now rewrite Nat.add_0_r.
Qed.

Lemma int16_range (item : list byte) :
  (-32768 <= int16_of_bytes item <= 32767)%Z.
Proof.
  unfold int16_of_bytes.
  assert (H0 := Byte.to_N_bounded (nth 0 item x00)).
  assert (H1 := Byte.to_N_bounded (nth 1 item x00)).
  destruct (Z.ltb_spec
              (Z.of_N (Byte.to_N (nth 0 item x00))
               + 256 * Z.of_N (Byte.to_N (nth 1 item x00))) 32768); lia.
Qed.

(** X9. The load returns a buffer exactly when the file exists and the
    format is fc32, or sc16 with an even count of 16-bit values; an
    existing file with any other format tag raises [ValueError], and a
    missing file raises [FileNotFoundError] whatever the format tag. *)
Theorem load_iq_file_ok_iff (fs : filesystem) (path fmt : string) :
  ((exists buf, load fs path fmt = Ok buf)
   <-> exists bs, fs path = Some bs
                  /\ (fmt = "fc32"
                      \/ (fmt = "sc16"
                          /\ Nat.even (length bs / 2) = true)))
  /\ (forall bs, fs path = Some bs -> fmt <> "fc32" -> fmt <> "sc16" ->
      load fs path fmt
      = Raise (ValueError "Unsupported FILE_FORMAT: use 'fc32' or 'sc16'"))
  /\ (fs path = None ->
      load fs path fmt
      = Raise (FileNotFoundError (String.append path " not found"))).
Proof.
  unfold load_iq_file. destruct (fs path) as [bs|] eqn:E.
  - destruct (String.eqb_spec fmt "fc32") as [Hf|Hf].
    { repeat split; try congruence; eauto. }
    destruct (String.eqb_spec fmt "sc16") as [Hs|Hs].
    + rewrite length_map, odd_mod2, np_fromfile_length, <- Nat.negb_even by lia.
      destruct (Nat.even (length bs / 2)) eqn:Ev; cbn [negb].
      * repeat split; try congruence; eauto 6.
      * repeat split; try congruence.
        -- intros [buf H]. discriminate.
        -- intros (bs' & Hbs & [H|[_ H]]); [congruence|].
           injection Hbs as <-. congruence.
    + repeat split; try congruence.
      * intros [buf H]. discriminate.
      * intros (bs' & _ & [H|[H _]]); congruence.
  - repeat split; try congruence.
    + intros [buf H]. discriminate.
    + intros (bs' & H & _). discriminate.
Qed.

(** X10. The layout of a loaded file: sample [k] of an fc32 file is read
    from bytes [8k .. 8k+7]; sample [k] of an sc16 file with an even count
    of values is made of the little-endian signed 16-bit integers at bytes
    [4k, 4k+1] (in-phase) and [4k+2, 4k+3] (quadrature), and the buffer
    holds one sample per four bytes. *)
Theorem load_iq_file_layout (fs : filesystem) (path : string)
        (bs : list byte) :
  fs path = Some bs ->
  (exists buf,
      load fs path "fc32" = Ok buf
      /\ length buf = (length bs / 8)%nat
      /\ forall k d, (k < length bs / 8)%nat ->
           nth k buf d = view_complex64 (firstn 8 (skipn (8 * k) bs)))
  /\ (Nat.even (length bs / 2) = true ->
      exists buf,
        load fs path "sc16" = Ok buf
        /\ length buf = (length bs / 4)%nat
        /\ forall k d, (k < length bs / 4)%nat ->
             let I := int16_of_bytes [nth (4 * k) bs x00;
                                      nth (4 * k + 1) bs x00] in
             let Q := int16_of_bytes [nth (4 * k + 2) bs x00;
                                      nth (4 * k + 3) bs x00] in
             nth k buf d = scale_sc16 I Q
             /\ (-32768 <= I <= 32767)%Z /\ (-32768 <= Q <= 32767)%Z).
Proof.
  intros E. unfold load_iq_file. rewrite E.
  cbn [String.eqb Ascii.eqb Bool.eqb].
  assert (Hquarter : (length bs / 2 / 2 = length bs / 4)%nat)
    by (rewrite Nat.Div0.div_div; reflexivity).
  split.
  - eexists. split; [reflexivity|].
    split; [now rewrite length_map, np_fromfile_length by lia|].
    intros k d Hk.
    rewrite (nth_map_lt _ _ _ _ []) by (rewrite np_fromfile_length; lia).
    unfold np_fromfile. now rewrite items_nth by lia.
  - intros Ev.
    rewrite length_map, odd_mod2, np_fromfile_length, <- Nat.negb_even, Ev
      by lia.
    cbn [negb]. eexists. split; [reflexivity|].
    split.
    { now rewrite length_map, reshape2_length, length_map,
        np_fromfile_length, Hquarter by lia. }
    intros k d Hk. cbv zeta.
    split; [|split; apply int16_range].
    rewrite (nth_map_lt _ _ _ _ (0, 0)%Z)
      by (rewrite reshape2_length, length_map, np_fromfile_length,
            Hquarter by lia; exact Hk).
    rewrite reshape2_nth
      by (rewrite length_map, np_fromfile_length, Hquarter by lia; exact Hk).
    cbn [fst snd].
    assert (Hk2 : (2 * k + 1 < length bs / 2)%nat).
    { rewrite <- Hquarter in Hk.
      assert (H := Nat.div_mod_eq (length bs / 2) 2). lia. }
    rewrite !(nth_map_lt _ _ _ _ [])
      by (rewrite np_fromfile_length; lia).
    unfold np_fromfile. rewrite !items_nth by lia.
    rewrite !int16_of_item.
    replace (2 * (2 * k))%nat with (4 * k)%nat by lia.
    replace (2 * (2 * k + 1))%nat with (4 * k + 2)%nat by lia.
    replace (4 * k + 2 + 1)%nat with (4 * k + 3)%nat by lia.
    reflexivity.
Qed.

End LoaderLayout.

(** X9, on a file read with an unknown format tag. *)
Lemma load_iq_file_ok_iff_witness :
  let fs : Loader.filesystem := fun _ => Some [x01; x00] in
  Loader.load_iq_file (Z * Z) (fun _ => (0, 0)%Z) (fun i q => (i, q))
                      fs "gpssim.bin" "sc8"
  = Py.Raise (Py.ValueError "Unsupported FILE_FORMAT: use 'fc32' or 'sc16'").
Proof.
  intros fs.
  destruct (load_iq_file_ok_iff (Z * Z) (fun _ => (0, 0)%Z) (fun i q => (i, q))
              fs "gpssim.bin" "sc8") as (_ & H & _).
  apply (H [x01; x00]); [reflexivity|discriminate|discriminate].
Defined.

(** X10, on an sc16 file of one sample: I = 1, Q = -2. *)
Lemma load_iq_file_layout_witness :
  let bs := [x01; x00; xfe; xff] in
  let fs : Loader.filesystem := fun _ => Some bs in
  exists buf,
    Loader.load_iq_file (Z * Z) (fun _ => (0, 0)%Z) (fun i q => (i, q))
                        fs "gpssim.bin" "sc16" = Py.Ok buf
    /\ length buf = 1%nat
    /\ nth 0 buf (0, 0)%Z = (1, -2)%Z.
Proof.
  intros bs fs.
  destruct (load_iq_file_layout (Z * Z) (fun _ => (0, 0)%Z) (fun i q => (i, q))
              fs "gpssim.bin" bs eq_refl) as (_ & H).
  destruct (H eq_refl) as (buf & Hb & Hl & Hn).
  exists buf. split; [exact Hb|]. split; [exact Hl|].
  exact (proj1 (Hn 0%nat (0, 0)%Z ltac:(simpl; lia))).
Defined.

(* ================================================================== *)
(** * Further properties of the receive loop *)

Section RxCapture.
Import Py Rx Trace.

Variable complex64 : Type.
Variable tobytes : complex64 -> list byte.
Variable view_complex64 : list byte -> complex64.

(** A complex64 item is eight bytes wide, and reading the bytes of an
    item gives the item back. *)
Hypothesis tobytes_itemsize : forall s, length (tobytes s) = 8%nat.
Hypothesis view_tobytes : forall s, view_complex64 (tobytes s) = s.

Lemma rx_iteration_content (fh : list byte) (r : recv_result complex64) :
  fst (rx_iteration complex64 tobytes fh r)
  = fh ++ flat_map tobytes (captured r).
Proof.
  destruct r as [|num code buf]; unfold rx_iteration, captured.
  - now rewrite app_nil_r.
  - destruct code; try (now rewrite app_nil_r).
    destruct (Nat.ltb_spec 0 num); [reflexivity|].
    replace num with 0%nat by lia. cbn. now rewrite app_nil_r.
Qed.

Lemma rx_loop_content (env : list (recv_result complex64)) :
  forall fh,
    fst (rx_loop complex64 tobytes fh env)
    = fh ++ flat_map tobytes (flat_map captured env).
Proof.
  induction env as [|r env IH]; intros fh.
  - cbn. now rewrite app_nil_r.
  - rewrite rx_loop_fst_cons, IH, rx_iteration_content.
    cbn [flat_map]. now rewrite flat_map_app, app_assoc.
Qed.

Lemma fromfile_blocks (l : list complex64) :
  forall fuel,
    (length (flat_map tobytes l) <= fuel)%nat ->
    Loader.items 8 fuel (flat_map tobytes l) = map tobytes l.
Proof.
  induction l as [|s l IH]; intros fuel Hf.
  - destruct fuel; reflexivity.
  - cbn [flat_map map] in *. rewrite length_app, tobytes_itemsize in Hf.
    destruct fuel as [|fuel]; [lia|]. cbn [Loader.items].
    rewrite length_app, tobytes_itemsize.
    destruct (Nat.leb_spec 8 (8 + length (flat_map tobytes l))); [|lia].
    rewrite firstn_app, tobytes_itemsize, Nat.sub_diag, firstn_O, app_nil_r.
    rewrite firstn_all2 by (rewrite tobytes_itemsize; lia).
    rewrite skipn_app, tobytes_itemsize, Nat.sub_diag, skipn_O.
    rewrite skipn_all2 by (rewrite tobytes_itemsize; lia).
    cbn [app]. rewrite IH by lia. reflexivity.
Qed.

(** X11. The capture file holds the bytes of the samples of the
    error-free iterations, in order, and nothing else; read back with
    [np.fromfile(..., dtype=np.complex64)], as [main] does, it gives
    exactly those samples. *)
Theorem rx_capture_roundtrip (env : list (recv_result complex64)) :
  fst (rx_thread_fn complex64 tobytes env)
  = flat_map tobytes (flat_map captured env)
  /\ map view_complex64
         (Loader.np_fromfile 8 (fst (rx_thread_fn complex64 tobytes env)))
     = flat_map captured env.
Proof.
  unfold rx_thread_fn. rewrite rx_loop_content. cbn [app].
  split; [reflexivity|].
  unfold Loader.np_fromfile. rewrite fromfile_blocks by lia.
  rewrite map_map. rewrite <- (map_id (flat_map captured env)) at 2.
  apply map_ext. exact view_tobytes.
Qed.

End RxCapture.

(** X11, with one-byte payloads padded to eight bytes. *)
Lemma rx_capture_roundtrip_witness :
  let tobytes := fun b : byte => [b; x00; x00; x00; x00; x00; x00; x00] in
  let view := fun item : list byte => hd x00 item in
  let env := [Rx.Recv byte 2 Rx.none [x01; x02; x03];
              Rx.Recv byte 3 Rx.overflow [x04; x05; x06];
              Rx.RecvRaised byte;
              Rx.Recv byte 1 Rx.none [x07; x05; x06]] in
  map view (Loader.np_fromfile 8 (fst (Rx.rx_thread_fn byte tobytes env)))
  = [x01; x02; x07].
Proof.
  intros tobytes view env.
  exact (proj2 (rx_capture_roundtrip byte tobytes view
                  (fun _ => eq_refl) (fun _ => eq_refl) env)).
Defined.

(* ================================================================== *)
(** * Further properties of the transmit loop *)

Section TxMore.
Import Py Tx Trace.

Variable complex64 : Type.
Variable CHUNK_SAMPLES : nat.
Variable iq_data : list complex64.

Local Abbreviation total := (length iq_data).
Local Abbreviation loop LOOP_FILE :=
  (tx_loop complex64 LOOP_FILE CHUNK_SAMPLES iq_data).
Local Abbreviation after_send := (Tx.after_send complex64 CHUNK_SAMPLES iq_data).
Local Abbreviation progress_of := (Tx.progress_of complex64 iq_data).
Local Abbreviation cursor := (Tx.cursor complex64 iq_data).
Local Abbreviation chunk_at := (Tx.chunk_at complex64 CHUNK_SAMPLES iq_data).
Local Abbreviation chunks_of := (chunks complex64).

Lemma chunks_needed_step (i : nat) :
  (1 <= CHUNK_SAMPLES)%nat -> (i < total)%nat ->
  ((total - i + CHUNK_SAMPLES - 1) / CHUNK_SAMPLES
   = S ((total - (i + Nat.min CHUNK_SAMPLES (total - i)) + CHUNK_SAMPLES - 1)
        / CHUNK_SAMPLES))%nat.
Proof.
  intros HC Hi.
  destruct (Nat.le_gt_cases CHUNK_SAMPLES (total - i)) as [H|H].
  - rewrite Nat.min_l by lia.
    replace (total - i + CHUNK_SAMPLES - 1)%nat
      with ((total - (i + CHUNK_SAMPLES) + CHUNK_SAMPLES - 1)
            + 1 * CHUNK_SAMPLES)%nat by lia.
    rewrite Nat.div_add by lia. lia.
  - rewrite Nat.min_r by lia.
    replace (total - (i + (total - i)) + CHUNK_SAMPLES - 1)%nat
      with (CHUNK_SAMPLES - 1)%nat by lia.
    rewrite (Nat.div_small (CHUNK_SAMPLES - 1)) by lia.
    symmetry. apply (Nat.div_unique _ _ _ (total - i - 1)); lia.
Qed.

Lemma noloop_count env :
  all_sent env -> (1 <= CHUNK_SAMPLES)%nat ->
  forall st, (idx st <= total)%nat ->
  let need := ((total - idx st + CHUNK_SAMPLES - 1) / CHUNK_SAMPLES)%nat in
  length (chunks_of (fst (fst (loop false env st))))
  = Nat.min (length env) need
  /\ snd (loop false env st)
     = (if (need <? length env)%nat then BufferExhausted else StopObserved)
  /\ sent_chunks (snd (fst (loop false env st)))
     = (sent_chunks st + Nat.min (length env) need)%nat.
Proof.
  intros Henv HC. induction Henv as [|r env Hr Henv IH]; intros st Hst.
  - cbn. repeat split; lia.
  - destruct r as [n|]; [clear Hr|discriminate].
    destruct (Nat.eq_dec (idx st) total) as [E|E].
    + rewrite loop_exhausted by lia. cbn zeta. cbn [fst snd].
      replace (total - idx st + CHUNK_SAMPLES - 1)%nat
        with (CHUNK_SAMPLES - 1)%nat by lia.
      rewrite Nat.div_small by lia. cbn [length]. repeat split; try lia.
    + rewrite noloop_chunks_step by lia.
      rewrite loop_sent by (left; lia). cbn [fst snd]. cbv zeta.
      assert (Hcur : cursor st = idx st).
      { unfold Tx.cursor.
        destruct (Nat.leb_spec (total - idx st) 0); [lia|reflexivity]. }
      rewrite Hcur.
      destruct (IH (after_send st (idx st))) as (H1 & H2 & H3);
        [cbn; lia|].
      cbn [idx sent_chunks Tx.after_send] in H1, H2, H3.
      rewrite (chunks_needed_step (idx st)) by lia.
      cbn [length]. rewrite H1, H2, H3.
      repeat split; lia.
Qed.

(** X12. A non-looping pass in which every [send] returns sends
    [min(iterations allowed, ceil(total / chunk))] data chunks and counts
    as many; the loop ends on the exhausted buffer when the stop event
    stays clear longer than that, and on the stop event otherwise. *)
Theorem tx_noloop_chunk_count (env : list send_result) :
  all_sent env -> (1 <= CHUNK_SAMPLES)%nat ->
  let need := ((total + CHUNK_SAMPLES - 1) / CHUNK_SAMPLES)%nat in
  length (data_chunks complex64 false CHUNK_SAMPLES iq_data env)
  = Nat.min (length env) need
  /\ snd (loop false env st_init)
     = (if (need <? length env)%nat then BufferExhausted else StopObserved)
  /\ sent_chunks (snd (fst (loop false env st_init)))
     = Nat.min (length env) need.
Proof.
  intros Henv HC.
  destruct (noloop_count env Henv HC st_init) as (H1 & H2 & H3);
    [cbn; lia|].
  cbn [idx sent_chunks st_init] in H1, H2, H3.
  rewrite Nat.sub_0_r in H1, H2, H3.
  unfold data_chunks. cbv zeta. auto.
Qed.

Lemma div200_succ (n : nat) :
  ((if (S n mod 200 =? 0) then 1 else 0) + n / 200 = S n / 200)%nat.
Proof.
  assert (Hn := Nat.div_mod_eq n 200).
  assert (Hr := Nat.mod_upper_bound n 200 ltac:(lia)).
  destruct (Nat.eq_dec (n mod 200) 199) as [E|E].
  - assert (Hm : (S n mod 200 = 0)%nat).
    { symmetry. apply (Nat.mod_unique _ _ (S (n / 200))); lia. }
    rewrite Hm. cbn [Nat.eqb].
    apply (Nat.div_unique _ _ _ 0); lia.
  - assert (Hm : (S n mod 200 = S (n mod 200))%nat).
    { symmetry. apply (Nat.mod_unique _ _ (n / 200)); lia. }
    rewrite Hm. cbn [Nat.eqb Nat.add].
    apply (Nat.div_unique _ _ _ (S (n mod 200))); lia.
Qed.

Lemma progress_lines_app (tr tr' : list (event complex64)) :
  progress_lines (tr ++ tr') = (progress_lines tr + progress_lines tr')%nat.
Proof. unfold progress_lines. now rewrite filter_app, length_app. Qed.

Lemma delivered_app (tr tr' : list (event complex64)) :
  delivered complex64 (tr ++ tr')
  = delivered complex64 tr ++ delivered complex64 tr'.
Proof. unfold delivered. apply filter_app. Qed.

Lemma progress_count LOOP_FILE env :
  forall st,
    (progress_lines (fst (fst (loop LOOP_FILE env st))) + sent_chunks st / 200
     = (sent_chunks st
        + length (delivered complex64 (fst (fst (loop LOOP_FILE env st)))))
       / 200)%nat.
Proof.
  induction env as [|r env IH]; intros st.
  - cbn. now rewrite Nat.add_0_r.
  - assert (Hcase : ((idx st < total)%nat \/ LOOP_FILE = true)
                    \/ (LOOP_FILE = false /\ (total <= idx st)%nat)).
    { destruct LOOP_FILE; destruct (Nat.lt_ge_cases (idx st) total); auto. }
    destruct Hcase as [Hrun|[-> Hge]].
    + destruct r as [n|].
      * rewrite loop_sent by auto. cbn [fst snd].
        change (Send complex64 ?c ?m ?r :: ?l)
          with ([Send complex64 c m r] ++ l).
        rewrite !progress_lines_app, !delivered_app, !length_app.
        specialize (IH (after_send st (cursor st))).
        cbn [sent_chunks Tx.after_send] in IH.
        assert (Hd := div200_succ (sent_chunks st)).
        unfold Tx.progress_of. cbn [sent_chunks Tx.after_send].
        destruct (S (sent_chunks st) mod 200 =? 0)%nat;
          cbn [progress_lines delivered filter length returned app Nat.add]
            in *;
          rewrite Nat.add_succ_r, <- IH; lia.
      * rewrite loop_raised by auto. cbn. now rewrite Nat.add_0_r.
    + rewrite loop_exhausted by lia. cbn. now rewrite Nat.add_0_r.
Qed.

(** X13. In any session, looping or not and whatever the calls of [send]
    do, the loop has printed one progress line for every 200 calls of
    [send] that returned. *)
Theorem tx_progress_lines (LOOP_FILE : bool) (env : list send_result) :
  let tr := fst (fst (loop LOOP_FILE env st_init)) in
  progress_lines tr = (length (delivered complex64 tr) / 200)%nat.
Proof.
  cbv zeta. assert (H := progress_count LOOP_FILE env st_init).
  cbn [sent_chunks st_init] in H.
  rewrite Nat.Div0.div_0_l, Nat.add_0_r, Nat.add_0_l in H. exact H.
Qed.

Lemma loop_in_bounds LOOP_FILE env :
  forall st, (idx st <= total)%nat ->
  (idx (snd (fst (loop LOOP_FILE env st))) <= total)%nat
  /\ Forall (fun c => (length c <= CHUNK_SAMPLES)%nat
                      /\ exists i, (i + length c <= total)%nat
                                   /\ c = slice iq_data i (i + length c))
            (chunks_of (fst (fst (loop LOOP_FILE env st)))).
Proof.
  induction env as [|r env IH]; intros st Hst.
  - cbn. split; [exact Hst|constructor].
  - assert (Hcase : ((idx st < total)%nat \/ LOOP_FILE = true)
                    \/ (LOOP_FILE = false /\ (total <= idx st)%nat)).
    { destruct LOOP_FILE; destruct (Nat.lt_ge_cases (idx st) total); auto. }
    assert (Hcur : (cursor st <= total)%nat).
    { unfold Tx.cursor. destruct (_ <=? _)%nat; lia. }
    assert (Hlen := chunk_at_length complex64 CHUNK_SAMPLES iq_data
                      (cursor st) Hcur).
    assert (Hc : (length (chunk_at (cursor st)) <= CHUNK_SAMPLES)%nat
                 /\ exists i, (i + length (chunk_at (cursor st)) <= total)%nat
                              /\ chunk_at (cursor st)
                                 = slice iq_data i
                                         (i + length (chunk_at (cursor st)))).
    { split; [lia|]. exists (cursor st). split; [lia|].
      rewrite Hlen. reflexivity. }
    destruct Hcase as [Hrun|[-> Hge]].
    + destruct r as [n|].
      * rewrite loop_sent by auto. cbn [fst snd].
        change (Send complex64 ?c ?m ?r :: ?l)
          with ([Send complex64 c m r] ++ l).
        rewrite !chunks_app, chunks_progress. cbn [app].
        destruct (IH (after_send st (cursor st))) as [H1 H2];
          [cbn; lia|].
        split; [exact H1|]. constructor; [exact Hc|exact H2].
      * rewrite loop_raised by auto. cbn [fst snd idx].
        split; [exact Hcur|]. constructor; [exact Hc|constructor].
    + rewrite loop_exhausted by lia. cbn. split; [exact Hst|constructor].
Qed.

(** X14. In any session the cursor stays within the buffer, and every
    chunk handed to [send] in the loop is a contiguous piece of the buffer
    of at most the chunk size. *)
Theorem tx_chunks_in_bounds (LOOP_FILE : bool) (env : list send_result) :
  (idx (snd (fst (loop LOOP_FILE env st_init))) <= total)%nat
  /\ Forall (fun c => (length c <= CHUNK_SAMPLES)%nat
                      /\ exists i, (i + length c <= total)%nat
                                   /\ c = slice iq_data i (i + length c))
            (data_chunks complex64 LOOP_FILE CHUNK_SAMPLES iq_data env).
Proof.
  apply (loop_in_bounds LOOP_FILE env st_init). cbn. lia.
Qed.

End TxMore.

Section TxEmptyBuffer.
Import Py Tx.

Variable complex64 : Type.
Variable CHUNK_SAMPLES : nat.

Lemma looping_empty_chunks (env : list send_result) :
  all_sent env -> forall st,
  chunks complex64
         (fst (fst (tx_loop complex64 true CHUNK_SAMPLES [] env st)))
  = repeat [] (length env)
  /\ snd (tx_loop complex64 true CHUNK_SAMPLES [] env st) = StopObserved.
Proof.
  induction 1 as [|r env Hr Henv IH]; intros st.
  - split; reflexivity.
  - destruct r as [n|]; [clear Hr|discriminate].
    rewrite looping_chunks_step, loop_sent by auto. cbn [fst snd].
    destruct (IH (after_send complex64 CHUNK_SAMPLES [] st
                             (cursor complex64 [] st))) as [H1 H2].
    rewrite H1, H2. split; [|reflexivity].
    cbn [length repeat]. f_equal.
    unfold chunk_at, slice. now rewrite skipn_nil, firstn_nil.
Qed.

(** X15. An empty buffer: in non-looping mode the thread sends nothing
    but the flush, which then carries start-of-burst and end-of-burst
    together; in looping mode every iteration hands an empty chunk to
    [send] and the loop only ends on the stop event. *)
Theorem tx_empty_buffer (env : list send_result) (flush : send_result) :
  tx_thread_fn complex64 false CHUNK_SAMPLES [] env flush
  = [Send complex64 []
          {| start_of_burst := true; end_of_burst := true;
             has_time_spec := false |} flush]
  /\ (all_sent env ->
      data_chunks complex64 true CHUNK_SAMPLES [] env
      = repeat [] (length env)
      /\ snd (tx_loop complex64 true CHUNK_SAMPLES [] env st_init)
         = StopObserved).
Proof.
  split.
  - destruct env; reflexivity.
  - intros Henv. apply (looping_empty_chunks env Henv st_init).
Qed.

End TxEmptyBuffer.

(** X12, on five samples in chunks of two with the stop event clear for
    four iterations. *)
Lemma tx_noloop_chunk_count_witness :
  let env := [Tx.Sent 2; Tx.Sent 2; Tx.Sent 1; Tx.Sent 0] in
  length (Tx.data_chunks nat false 2 [1; 2; 3; 4; 5]%nat env) = 3%nat
  /\ snd (Tx.tx_loop nat false 2 [1; 2; 3; 4; 5]%nat env Tx.st_init)
     = Tx.BufferExhausted.
Proof.
  intros env.
  assert (Henv : Tx.all_sent env) by (repeat constructor).
  destruct (tx_noloop_chunk_count nat 2 [1; 2; 3; 4; 5]%nat env Henv)
    as (H1 & H2 & _); [lia|].
  split; [exact H1|exact H2].
Defined.

(** X15, on a looping thread with an empty buffer. *)
Lemma tx_empty_buffer_witness :
  Tx.data_chunks nat true 4 [] [Tx.Sent 0; Tx.Sent 0]
  = repeat [] 2.
Proof.
  assert (Henv : Tx.all_sent [Tx.Sent 0; Tx.Sent 0]) by (repeat constructor).
  exact (proj1 (proj2 (tx_empty_buffer nat 4 [Tx.Sent 0; Tx.Sent 0]
                         (Tx.Sent 0)) Henv)).
Defined.

Section RxTestFacts.
Import Rx RxTest.

Variable complex64 : Type.
Variable tobytes : complex64 -> list byte.

Lemma rx_loop_app_full (env1 env2 : list (recv_result complex64)) :
  forall fh,
    rx_loop complex64 tobytes fh (env1 ++ env2)
    = (fst (rx_loop complex64 tobytes
                    (fst (rx_loop complex64 tobytes fh env1)) env2),
       snd (rx_loop complex64 tobytes fh env1)
       ++ snd (rx_loop complex64 tobytes
                       (fst (rx_loop complex64 tobytes fh env1)) env2)).
Proof.
  induction env1 as [|r env1 IH]; intros fh.
  - cbn. now destruct (rx_loop complex64 tobytes fh env2).
  - cbn [app rx_loop].
    destruct (rx_iteration complex64 tobytes fh r) as [fh1 out1].
    rewrite IH.
    destruct (rx_loop complex64 tobytes fh1 env1) as [fh2 out2].
    cbn [fst snd]. now rewrite app_assoc.
Qed.

Lemma test_loop_app (pre env : list (recv_result complex64)) :
  Forall (fun r => r <> RecvRaised complex64) pre ->
  test_loop complex64 (pre ++ env)
  = test_loop complex64 pre ++ test_loop complex64 env.
Proof.
  induction 1 as [|r pre Hr _ IH]; [reflexivity|].
  destruct r as [|num code buf]; [congruence|].
  cbn [app test_loop]. now rewrite IH, <- !app_assoc.
Qed.

(** X16. The two receive tests stop at the first [recv] that raises:
    whatever the later calls would have returned, the output ends with
    the exception line.  The capture thread of the loopback script
    treats the same exception differently: it logs it and goes on with
    the remaining iterations, on the file as it stood. *)
Theorem rx_test_stops_at_exception
        (pre post : list (recv_result complex64)) :
  Forall (fun r => r <> RecvRaised complex64) pre ->
  test_loop complex64 (pre ++ RecvRaised complex64 :: post)
  = test_loop complex64 pre ++ [RecvExceptionLine]
  /\ rx_thread_fn complex64 tobytes (pre ++ RecvRaised complex64 :: post)
     = (fst (rx_loop complex64 tobytes
                     (fst (rx_thread_fn complex64 tobytes pre)) post),
        snd (rx_thread_fn complex64 tobytes pre)
        ++ RecvException
        :: snd (rx_loop complex64 tobytes
                        (fst (rx_thread_fn complex64 tobytes pre)) post)).
Proof.
  intros Hpre. split.
  - now rewrite test_loop_app.
  - unfold rx_thread_fn. rewrite rx_loop_app_full. cbn [rx_loop rx_iteration].
    destruct (rx_loop complex64 tobytes
                      (fst (rx_loop complex64 tobytes [] pre)) post).
    reflexivity.
Qed.

(** The lines of the test loop that report samples. *)
Lemma test_loop_got_samples (env : list (recv_result complex64)) :
  Forall (fun r => r <> RecvRaised complex64) env ->
  filter (fun l => match l with GotSamples _ => true | _ => false end)
         (test_loop complex64 env)
  = map GotSamples
        (filter (fun n => (0 <? n)%nat) (map (valid_count complex64) env)).
Proof.
  induction 1 as [|r env Hr _ IH]; [reflexivity|].
  destruct r as [|num code buf]; [congruence|].
  cbn [test_loop map filter]. rewrite filter_app, IH.
  destruct code; cbn [valid_count filter app]; try reflexivity.
  now destruct (0 <? num)%nat.
Qed.

(** X17. While no [recv] raises, the receive tests and the capture
    thread agree on which iterations delivered samples: the test prints
    its rms line for exactly the iterations for which the capture thread
    logs a sample count, with the same counts and in the same order. *)
Theorem rx_test_agrees_with_capture (env : list (recv_result complex64)) :
  Forall (fun r => r <> RecvRaised complex64) env ->
  map (fun l => match l with GotSamples n => Samples n | _ => RecvException end)
      (filter (fun l => match l with GotSamples _ => true | _ => false end)
              (test_loop complex64 env))
  = filter (fun l => match l with Samples _ => true | _ => false end)
           (snd (rx_thread_fn complex64 tobytes env)).
Proof.
  intros Henv. rewrite test_loop_got_samples by assumption.
  unfold rx_thread_fn. generalize (@nil byte) as fh.
  induction Henv as [|r env Hr _ IH]; intros fh; [reflexivity|].
  destruct r as [|num code buf]; [congruence|].
  cbn [rx_loop].
  destruct (rx_iteration complex64 tobytes fh (Recv complex64 num code buf))
    as [fh1 out1] eqn:E1.
  specialize (IH fh1).
  destruct (rx_loop complex64 tobytes fh1 env) as [fh2 out2].
  cbn [snd] in *. rewrite filter_app, <- IH.
  cbn [map valid_count rx_iteration] in *.
  destruct code; cbn [filter] in *;
    try (injection E1 as <- <-; reflexivity).
  destruct (0 <? num)%nat; injection E1 as <- <-; reflexivity.
Qed.

End RxTestFacts.

Section FlowgraphFacts.
Import Flowgraph.
Local Open Scope R_scope.

Lemma int8_of_byte_range (b : byte) :
  (-128 <= int8_of_byte b <= 127)%Z.
Proof.
  unfold int8_of_byte.
  pose proof (Byte.to_N_bounded b) as H.
  destruct (Z.ltb_spec (Z.of_N (Byte.to_N b)) 128); lia.
Qed.

Lemma sink_sample (tx_file : list byte) (scale : R) (k : nat) :
  usrp_sink_input tx_file scale k
  = (scale * IZR (int8_of_byte
                    (nth ((2 * k) mod length tx_file) tx_file x00)),
     scale * IZR (int8_of_byte
                    (nth ((2 * k + 1) mod length tx_file) tx_file x00))).
Proof.
  unfold usrp_sink_input, float_to_complex, multiply_const_ff, char_to_float,
    deinterleave, file_source.
  rewrite Nat.add_0_r. f_equal; field.
Qed.

(** X18. For a file with at least one byte and a non-negative [scale]
    every sample the flowgraph hands to the USRP sink has both
    components between [-128 * scale] and [127 * scale]; with the
    default of 1/128 that is within [-1, 1). *)
Theorem flowgraph_sample_range (tx_file : list byte) (scale : R) (k : nat) :
  tx_file <> [] -> 0 <= scale ->
  let s := usrp_sink_input tx_file scale k in
  -128 * scale <= fst s <= 127 * scale
  /\ -128 * scale <= snd s <= 127 * scale.
Proof.
  intros _ Hs s. subst s. rewrite sink_sample. cbn [fst snd].
  assert (Hb : forall b, -128 * scale <= scale * IZR (int8_of_byte b)
                         <= 127 * scale).
  { intros b. destruct (int8_of_byte_range b) as [Hlo Hhi].
    apply IZR_le in Hlo, Hhi. split; nra. }
  split; apply Hb.
Qed.

(** X19. A file with an even number [2 * m] of bytes is transmitted as
    its [m] samples over and over: sample [k < m] at the sink is made of
    bytes [2k] (in-phase) and [2k + 1] (quadrature) of the file, read as
    signed and multiplied by [scale], and the stream has period [m]. *)
Theorem flowgraph_even_file_period
        (tx_file : list byte) (scale : R) (m k : nat) :
  length tx_file = (2 * m)%nat -> (0 < m)%nat ->
  usrp_sink_input tx_file scale (k + m)%nat = usrp_sink_input tx_file scale k
  /\ ((k < m)%nat ->
      usrp_sink_input tx_file scale k
      = (scale * IZR (int8_of_byte (nth (2 * k) tx_file x00)),
         scale * IZR (int8_of_byte (nth (2 * k + 1) tx_file x00)))).
Proof.
  intros HL Hm. split.
  - rewrite !sink_sample, HL.
    replace (2 * (k + m))%nat with (2 * k + 1 * (2 * m))%nat by lia.
    replace (2 * k + 1 * (2 * m) + 1)%nat
      with (2 * k + 1 + 1 * (2 * m))%nat by lia.
    now rewrite !Nat.Div0.mod_add.
  - intros Hk. rewrite sink_sample, HL.
    now rewrite !Nat.mod_small by lia.
Qed.

(** X20. A file with an odd number [2 * m + 1] of bytes comes out with I
    and Q exchanged on the next pass: [m + 1] samples later the in-phase
    part is the quadrature part of sample [j], and the quadrature part
    is the in-phase part of sample [j + 1]. *)
Theorem flowgraph_odd_file_swaps_iq
        (tx_file : list byte) (scale : R) (m j : nat) :
  length tx_file = (2 * m + 1)%nat ->
  fst (usrp_sink_input tx_file scale (j + m + 1)%nat)
  = snd (usrp_sink_input tx_file scale j)
  /\ snd (usrp_sink_input tx_file scale (j + m + 1)%nat)
     = fst (usrp_sink_input tx_file scale (j + 1)%nat).
Proof.
  intros HL. rewrite !sink_sample, HL. cbn [fst snd].
  replace (2 * (j + m + 1))%nat
    with (2 * j + 1 + 1 * (2 * m + 1))%nat by lia.
  replace (2 * j + 1 + 1 * (2 * m + 1) + 1)%nat
    with (2 * (j + 1) + 1 * (2 * m + 1))%nat by lia.
  now rewrite !Nat.Div0.mod_add.
Qed.

End FlowgraphFacts.

(** X16, on a successful receive followed by an exception. *)
Lemma rx_test_stops_at_exception_witness :
  RxTest.test_loop nat
    ([Rx.Recv nat 2 Rx.none [1; 2; 3]%nat]
       ++ Rx.RecvRaised nat :: [Rx.Recv nat 1 Rx.none [4; 5; 6]%nat])
  = [RxTest.MdLine Rx.none 2; RxTest.GotSamples 2; RxTest.RecvExceptionLine].
Proof.
  refine (proj1 (rx_test_stops_at_exception nat (fun _ => [])
                   [Rx.Recv nat 2 Rx.none [1; 2; 3]%nat]
                   [Rx.Recv nat 1 Rx.none [4; 5; 6]%nat] _)).
  repeat constructor. discriminate.
Defined.

(** X17, on a receive with samples, a timeout and an empty receive. *)
Lemma rx_test_agrees_with_capture_witness :
  filter (fun l => match l with Rx.Samples _ => true | _ => false end)
         (snd (Rx.rx_thread_fn nat (fun _ => [])
                 [Rx.Recv nat 2 Rx.none [1; 2; 3]%nat;
                  Rx.Recv nat 0 Rx.timeout [1; 2; 3]%nat;
                  Rx.Recv nat 0 Rx.none [1; 2; 3]%nat]))
  = [Rx.Samples 2].
Proof.
  rewrite <- (rx_test_agrees_with_capture nat (fun _ => [])).
  - reflexivity.
  - repeat constructor; discriminate.
Defined.

(** X18, at the default scale. *)
Lemma flowgraph_sample_range_witness :
  let s := Flowgraph.usrp_sink_input [x80; x7f] (1 / 128) 0 in
  (-128 * (1 / 128) <= fst s <= 127 * (1 / 128)
   /\ -128 * (1 / 128) <= snd s <= 127 * (1 / 128))%R.
Proof.
  apply (flowgraph_sample_range [x80; x7f] (1 / 128) 0);
    [discriminate|lra].
Defined.

(** X19, on a file of two samples: sample 1 is made of bytes 2 and 3,
    and comes again two samples later. *)
Lemma flowgraph_even_file_period_witness :
  Flowgraph.usrp_sink_input [x01; x02; x03; x04] (1 / 128) (1 + 2)%nat
  = Flowgraph.usrp_sink_input [x01; x02; x03; x04] (1 / 128) 1
  /\ Flowgraph.usrp_sink_input [x01; x02; x03; x04] (1 / 128) 1
     = (1 / 128 * IZR (Flowgraph.int8_of_byte x03),
        1 / 128 * IZR (Flowgraph.int8_of_byte x04))%R.
Proof.
  destruct (flowgraph_even_file_period [x01; x02; x03; x04] (1 / 128) 2 1)
    as [H1 H2]; [reflexivity|lia|].
  split; [exact H1|apply H2; lia].
Defined.

(** X20, on a file of three bytes. *)
Lemma flowgraph_odd_file_swaps_iq_witness :
  fst (Flowgraph.usrp_sink_input [x01; x02; x03] (1 / 128) (0 + 1 + 1)%nat)
  = snd (Flowgraph.usrp_sink_input [x01; x02; x03] (1 / 128) 0).
Proof.
  exact (proj1 (flowgraph_odd_file_swaps_iq [x01; x02; x03] (1 / 128) 1 0
                  eq_refl)).
Defined.
